(** * Game event generator: a shallow embedding of [generator/generator.py]

    The generator keeps a global pool of player records, repeatedly draws a
    player and an action at random, updates the player in place and hands the
    resulting event to a PostgreSQL connection.

    The embedding threads the program's global state (the pool, the state of
    the [random] module and of the [Faker] instance) through a small
    state-and-exception monad.  Python integers are [Z]; dictionaries with a
    fixed set of keys are records; [ACTION_TYPES], whose key order matters to
    [random.choices], is an association list. *)

From Stdlib Require Import ZArith QArith Qround Lia Lqa String Ascii.
From Stdlib Require Import DecimalString DecimalNat Permutation Sorted.
From stdpp Require Import base tactics option list sorting.

Close Scope Q_scope.
Local Open Scope string_scope.
Local Open Scope Z_scope.

(** ** Data model *)

(** A player dictionary, as built by [init_player_pool]. *)
Module Player.
Record t : Type := mk {
  player_id : string;
  player_name : string;
  level : Z;
  total_points : Z;
  kills : Z;
  deaths : Z
}.

Definition set_level (v : Z) (p : t) : t :=
  mk (player_id p) (player_name p) v (total_points p) (kills p) (deaths p).
Definition set_total_points (v : Z) (p : t) : t :=
  mk (player_id p) (player_name p) (level p) v (kills p) (deaths p).
Definition set_kills (v : Z) (p : t) : t :=
  mk (player_id p) (player_name p) (level p) (total_points p) v (deaths p).
Definition set_deaths (v : Z) (p : t) : t :=
  mk (player_id p) (player_name p) (level p) (total_points p) (kills p) v.
End Player.

(** An event dictionary, as built at the end of [generate_event].
    [weapon = None] is Python's [None]. *)
Module Event.
Record t : Type := mk {
  player_id : string;
  player_name : string;
  action_type : string;
  points : Z;
  level : Z;
  weapon : option string;
  map_name : string
}.
End Event.

(** One entry of [ACTION_TYPES]. *)
Record ActionInfo : Type := mkAction {
  weight : Z;
  points_range : Z * Z;
  description : string
}.

(** ** Configuration tables *)

Definition WEAPONS : list string :=
  [ "AK-47"; "M4A4"; "M4A1-S"; "AWP"; "Desert Eagle";
    "P90"; "UMP-45"; "MP7"; "Glock-18"; "USP-S";
    "FAMAS"; "Galil AR"; "SSG 08"; "Knife"; "Grenade" ].

Definition MAPS : list string :=
  [ "de_dust2"; "de_inferno"; "de_mirage"; "de_nuke";
    "de_train"; "de_overpass"; "de_vertigo"; "de_ancient" ].

(** [ACTION_TYPES], in the insertion order of the dictionary literal. *)
Definition ACTION_TYPES : list (string * ActionInfo) :=
  [ ("kill",        mkAction 35 (10, 30)    "Убийство противника");
    ("death",       mkAction 35 (-25, -10)  "Смерть игрока");
    ("headshot",    mkAction 10 (40, 60)    "Убийство в голову");
    ("assist",      mkAction 8  (5, 15)     "Помощь в убийстве");
    ("achievement", mkAction 7  (50, 150)   "Достижение разблокировано");
    ("level_up",    mkAction 3  (100, 250)  "Повышение уровня");
    ("defuse_bomb", mkAction 2  (80, 120)   "Бомба обезврежена") ].

(** ** Global state, exceptions and the monad *)

(** The state of the [random] module: an infinite tape of rationals and a
    read position.  Every library call that needs entropy reads one cell and
    uses its fractional part, an idealised uniform variate of [0, 1). *)
Module Rng.
Record t : Type := mk { tape : nat -> Q; pos : nat }.
Definition advance (g : t) : t := mk (tape g) (S (pos g)).
End Rng.

(** The state of the [Faker] instance: the user names it will hand out. *)
Module Faker.
Record t : Type := mk { names : nat -> string; pos : nat }.
Definition advance (f : t) : t := mk (names f) (S (pos f)).
End Faker.

Record World : Type := mkWorld {
  PLAYER_POOL : list Player.t;
  rng : Rng.t;
  fake : Faker.t
}.

Inductive exn : Type :=
| IndexError
| KeyError
| ValueError
| DatabaseError.

Inductive result (A : Type) : Type :=
| Ok (a : A)
| Raise (e : exn).
Arguments Ok {A} a.
Arguments Raise {A} e.

Definition M (A : Type) : Type := World -> result A * World.

Definition ret {A} (a : A) : M A := fun w => (Ok a, w).
Definition raise {A} (e : exn) : M A := fun w => (Raise e, w).
Definition bind {A B} (m : M A) (k : A -> M B) : M B :=
  fun w => match m w with
           | (Ok a, w') => k a w'
           | (Raise e, w') => (Raise e, w')
           end.

Declare Scope py_scope.
Delimit Scope py_scope with py.
Notation "x <- m ;; k" := (bind m (fun x => k))
  (at level 100, m at next level, right associativity) : py_scope.
Notation "m ;;; k" := (bind m (fun _ => k))
  (at level 100, right associativity) : py_scope.
Local Open Scope py_scope.

Definition get_pool : M (list Player.t) := fun w => (Ok (PLAYER_POOL w), w).
Definition put_pool (l : list Player.t) : M unit :=
  fun w => (Ok tt, mkWorld l (rng w) (fake w)).

(** ** The [random] module

    [random.random()] returns a float of [0, 1).  The model reads the next
    tape cell and keeps its fractional part, so that every rational of
    [0, 1) is a possible outcome and no other number is.  Products with a
    variate are taken exactly; the rounding of float multiplication is left
    out of the model. *)

Definition Qfrac (q : Q) : Q := (q - inject_Z (Qfloor q))%Q.

Definition Qltb (x y : Q) : bool := negb (Qle_bool y x).

Definition random_random : M Q :=
  fun w =>
    let g := rng w in
    (Ok (Qfrac (Rng.tape g (Rng.pos g))),
     mkWorld (PLAYER_POOL w) (Rng.advance g) (fake w)).

(** [Random._randbelow(n)] for [n > 0]: a uniform integer of [0, n), taken
    here as a variate scaled by [n] and rounded down. *)
Definition randbelow (n : Z) : M Z :=
  u <- random_random ;;
  ret (Qfloor (u * inject_Z n)).

(** [random.randrange(start, stop)] and [random.randint(a, b)]. *)
Definition randrange (start stop : Z) : M Z :=
  let width := stop - start in
  if 0 <? width then (r <- randbelow width ;; ret (start + r))
  else raise ValueError.

Definition randint (a b : Z) : M Z := randrange a (b + 1).

(** The index that [random.choice(seq)] reads: [_randbelow(len(seq))], and
    [IndexError] on an empty sequence. *)
Definition random_index {A} (seq : list A) : M nat :=
  match seq with
  | [] => raise IndexError
  | _ :: _ => (i <- randbelow (Z.of_nat (length seq)) ;; ret (Z.to_nat i))
  end.

Definition subscript {A} (seq : list A) (i : nat) : M A :=
  match seq !! i with
  | Some x => ret x
  | None => raise IndexError
  end.

Definition random_choice {A} (seq : list A) : M A :=
  i <- random_index seq ;;
  subscript seq i.

(** [itertools.accumulate] on integers. *)
Fixpoint accumulate_from (acc : Z) (l : list Z) : list Z :=
  match l with
  | [] => []
  | x :: l' => (acc + x) :: accumulate_from (acc + x) l'
  end.
Definition accumulate (l : list Z) : list Z := accumulate_from 0 l.

(** [bisect.bisect_right(a, x, lo, hi)]: the binary search loop, run with
    as many rounds as the width of the window, which it never exceeds. *)
Fixpoint bisect_loop (fuel : nat) (a : list Z) (x : Q) (lo hi : nat)
  : result nat :=
  match fuel with
  | O => Ok lo
  | S fuel' =>
      if (lo <? hi)%nat then
        let mid := ((lo + hi) / 2)%nat in
        match a !! mid with
        | Some am =>
            if Qltb x (inject_Z am) then bisect_loop fuel' a x lo mid
            else bisect_loop fuel' a x (mid + 1)%nat hi
        | None => Raise IndexError
        end
      else Ok lo
  end.

Definition bisect (a : list Z) (x : Q) (lo hi : nat) : result nat :=
  bisect_loop (hi - lo) a x lo hi.

Definition lift {A} (r : result A) : M A := fun w => (r, w).

Definition result_bind {A B} (r : result A) (k : A -> result B) : result B :=
  match r with
  | Ok a => k a
  | Raise e => Raise e
  end.

(** [random.choices(population, weights=weights)], first half: the
    cumulative weights and their total, with the checks made on them before
    any variate is drawn. *)
Definition choices_table {A} (population : list A) (weights : list Z)
  : result (list Z * Z) :=
  let n := length population in
  let cum_weights := accumulate weights in
  if negb (length cum_weights =? n)%nat then Raise ValueError
  else match last cum_weights with
       | None => Raise IndexError
       | Some total =>
           if total <=? 0 then Raise ValueError else Ok (cum_weights, total)
       end.

(** Second half: [population[bisect(cum_weights, random() * total, 0, hi)]]
    with [hi = n - 1], for the variate [u] that [random()] returned. *)
Definition choices_select {A} (population : list A) (cum_weights : list Z)
    (total : Z) (u : Q) : result A :=
  let hi := (length population - 1)%nat in
  result_bind (bisect cum_weights (u * inject_Z total)%Q 0 hi)
    (fun i => match population !! i with
              | Some x => Ok x
              | None => Raise IndexError
              end).

(** The element that [random.choices] selects, as a function of the
    variate. *)
Definition choices_pick {A} (population : list A) (weights : list Z) (u : Q)
  : result A :=
  result_bind (choices_table population weights)
    (fun t => choices_select population (fst t) (snd t) u).

(** [random.choices(population, weights=weights)] with the default [k=1]:
    a list of one element. *)
Definition random_choices {A} (population : list A) (weights : list Z)
  : M (list A) :=
  t <- lift (choices_table population weights) ;;
  u <- random_random ;;
  x <- lift (choices_select population (fst t) (snd t) u) ;;
  ret [x].

(** ** Dictionary access and the pool *)

(** [d[key]] on a dictionary kept as an association list. *)
Fixpoint assoc {V} (d : list (string * V)) (key : string) : option V :=
  match d with
  | [] => None
  | (k, v) :: d' => if String.eqb k key then Some v else assoc d' key
  end.

Definition getitem {V} (d : list (string * V)) (key : string) : M V :=
  match assoc d key with
  | Some v => ret v
  | None => raise KeyError
  end.

(** [list(d.keys())]. *)
Definition keys {V} (d : list (string * V)) : list string := map fst d.

(** A list comprehension whose body may raise. *)
Fixpoint for_each {A B} (f : A -> M B) (l : list A) : M (list B) :=
  match l with
  | [] => ret []
  | x :: l' => (y <- f x ;; ys <- for_each f l' ;; ret (y :: ys))
  end.

(** [player] in [generate_event] is a reference to an element of
    [PLAYER_POOL]; the model keeps its index.  Reading a key of [player]
    reads the pool, and an assignment to a key updates the pool in place. *)
Definition read_player (i : nat) : M Player.t :=
  pool <- get_pool ;;
  subscript pool i.

Definition update_player (i : nat) (f : Player.t -> Player.t) : M unit :=
  pool <- get_pool ;;
  put_pool (alter f i pool).

Definition str_in (s : string) (l : list string) : bool :=
  existsb (String.eqb s) l.

(** ** [generate_event] *)

Definition generate_event : M Event.t :=
  pool <- get_pool ;;
  player <- random_index pool ;;
  let action_types := keys ACTION_TYPES in
  weights <- for_each (fun a => info <- getitem ACTION_TYPES a ;;
                                ret (weight info)) action_types ;;
  picked <- random_choices action_types weights ;;
  action_type <- subscript picked 0 ;;
  info <- getitem ACTION_TYPES action_type ;;
  let '(points_min, points_max) := points_range info in
  points <- randint points_min points_max ;;
  update_player player
    (fun p => Player.set_total_points (Player.total_points p + points) p) ;;;
  (if (action_type =? "kill")%string || (action_type =? "headshot")%string
   then update_player player
          (fun p => Player.set_kills (Player.kills p + 1) p)
   else if (action_type =? "death")%string
   then update_player player
          (fun p => Player.set_deaths (Player.deaths p + 1) p)
   else ret tt) ;;;
  fired <- (if (action_type =? "level_up")%string then ret true
            else (r <- random_random ;; ret (Qltb r (5 # 100)))) ;;
  (if fired : bool
   then (p <- read_player player ;;
         if Player.level p <? 100
         then update_player player
                (fun p => Player.set_level (Player.level p + 1) p)
         else ret tt)
   else ret tt) ;;;
  weapon <- (if str_in action_type ["kill"; "headshot"; "death"]
             then (w <- random_choice WEAPONS ;; ret (Some w))
             else ret None) ;;
  map_name <- random_choice MAPS ;;
  p <- read_player player ;;
  ret (Event.mk (Player.player_id p) (Player.player_name p) action_type
         points (Player.level p) weapon map_name).

(** ** [init_player_pool] *)

(** [fake.user_name()]. *)
Definition fake_user_name : M string :=
  fun w =>
    let f := fake w in
    (Ok (Faker.names f (Faker.pos f)),
     mkWorld (PLAYER_POOL w) (rng w) (Faker.advance f)).

(** [str(i)] for [i >= 0]. *)
Definition str_of_nat (i : nat) : string :=
  NilEmpty.string_of_uint (Nat.to_uint i).

Fixpoint zeros (n : nat) : string :=
  match n with
  | O => ""
  | S n' => String "0" (zeros n')
  end.

(** The format [{i:04d}] for [i >= 0]: decimal, padded with zeros on the
    left up to four characters. *)
Definition format_04d (i : nat) : string :=
  let s := str_of_nat i in
  zeros (4 - String.length s) ++ s.

(** [PLAYER_POOL.append(player)]. *)
Definition pool_append (p : Player.t) : M unit :=
  pool <- get_pool ;;
  put_pool (pool ++ [p]).

(** A [for] loop over a list of indices. *)
Fixpoint for_loop {A} (l : list A) (body : A -> M unit) : M unit :=
  match l with
  | [] => ret tt
  | x :: l' => (body x ;;; for_loop l' body)
  end.

(** [range(size)]: empty when [size <= 0]. *)
Definition range (size : Z) : list nat := seq 0 (Z.to_nat size).

Definition init_player_pool (size : Z) : M unit :=
  for_loop (range size)
    (fun i =>
       name <- fake_user_name ;;
       lvl <- randint 1 50 ;;
       pool_append (Player.mk ("PLAYER_" ++ format_04d i) name lvl 0 0 0)).

(** ** [print_statistics]: the ranking *)

(** [sorted(l, key=lambda p: p['total_points'], reverse=True)].  Python's
    sort is stable, also with [reverse=True]: players with equal points keep
    their order.  The model inserts each player in front of the first one
    that does not have strictly more points. *)
Fixpoint insert_desc (p : Player.t) (l : list Player.t) : list Player.t :=
  match l with
  | [] => [p]
  | q :: l' =>
      if Player.total_points p <? Player.total_points q
      then q :: insert_desc p l'
      else p :: q :: l'
  end.

Definition sorted_by_points_desc (l : list Player.t) : list Player.t :=
  foldr insert_desc [] l.

(** [sorted(...)[:n]]; [print_statistics] takes [n = 3]. *)
Definition top_n (n : nat) (pool : list Player.t) : list Player.t :=
  take n (sorted_by_points_desc pool).

(** [print_statistics] reads the pool and prints; the model returns the
    players of the printed ranking. *)
Definition print_statistics : M (list Player.t) :=
  pool <- get_pool ;;
  ret (top_n 3 pool).

(** ** The database connection and [insert_event] *)

(** What the model keeps of a [psycopg2] connection: the rows committed to
    [game_events], the rows of the open transaction, and a script that says
    which of the coming calls ([execute], [commit], [rollback]) raise. *)
Module Conn.
Record t : Type := mk {
  rows : list Event.t;
  pending : list Event.t;
  faults : nat -> bool;
  pos : nat
}.

Definition next_fault (c : t) : bool := faults c (pos c).
Definition step (c : t) (committed open : list Event.t) : t :=
  mk committed open (faults c) (S (pos c)).

(** [cursor.execute(query, event)]. *)
Definition execute (c : t) (e : Event.t) : result unit * t :=
  if next_fault c then (Raise DatabaseError, step c (rows c) (pending c))
  else (Ok tt, step c (rows c) (pending c ++ [e])).

(** [conn.commit()]. *)
Definition commit (c : t) : result unit * t :=
  if next_fault c then (Raise DatabaseError, step c (rows c) (pending c))
  else (Ok tt, step c (rows c ++ pending c) []).

(** [conn.rollback()]. *)
Definition rollback (c : t) : result unit * t :=
  if next_fault c then (Raise DatabaseError, step c (rows c) (pending c))
  else (Ok tt, step c (rows c) []).
End Conn.

(** [insert_event(conn, event)]: [True] after a commit, [False] when the
    statement or the commit raised and the rollback went through.  An
    exception raised by the rollback itself leaves the function. *)
Definition insert_event (conn : Conn.t) (event : Event.t)
  : result bool * Conn.t :=
  let attempt :=
    match Conn.execute conn event with
    | (Ok _, c1) => Conn.commit c1
    | (Raise e, c1) => (Raise e, c1)
    end in
  match attempt with
  | (Ok _, c2) => (Ok true, c2)
  | (Raise _, c2) =>
      match Conn.rollback c2 with
      | (Ok _, c3) => (Ok false, c3)
      | (Raise e, c3) => (Raise e, c3)
      end
  end.

(** ** The main loop *)

(** The variables of [main] that the loop uses, with the global state.
    [trace] is a ghost variable: every event generated so far, in order,
    with the answer of [insert_event] ([None] when it raised). *)
Record LoopState : Type := mkLoop {
  world : World;
  conn : Conn.t;
  event_count : Z;
  trace : list (Event.t * option bool)
}.

(** One round of [while True]: [Ok tt] when the round reaches
    [time.sleep], [Raise e] when an exception leaves the loop. *)
Definition loop_body (s : LoopState) : result unit * LoopState :=
  match generate_event (world s) with
  | (Raise e, w1) => (Raise e, mkLoop w1 (conn s) (event_count s) (trace s))
  | (Ok event, w1) =>
      match insert_event (conn s) event with
      | (Raise e, c1) =>
          (Raise e, mkLoop w1 c1 (event_count s) (trace s ++ [(event, None)]))
      | (Ok true, c1) =>
          let event_count' := event_count s + 1 in
          let w2 :=
            if event_count' mod 50 =? 0 then snd (print_statistics w1)
            else w1 in
          (Ok tt, mkLoop w2 c1 event_count' (trace s ++ [(event, Some true)]))
      | (Ok false, c1) =>
          (Ok tt,
           mkLoop w1 c1 (event_count s) (trace s ++ [(event, Some false)]))
      end
  end.

(** How a run of the loop ended: the stop signal ([KeyboardInterrupt])
    arrived, or an exception reached [except Exception]. *)
Inductive stop : Type :=
| Interrupted
| Crashed (e : exn).

(** The loop, with the stop signal arriving after [rounds] rounds. *)
Fixpoint main_loop (rounds : nat) (s : LoopState) : stop * LoopState :=
  match rounds with
  | O => (Interrupted, s)
  | S rounds' =>
      match loop_body s with
      | (Ok _, s') => main_loop rounds' s'
      | (Raise e, s') => (Crashed e, s')
      end
  end.

(** The state of the module when it has just been loaded:
    [PLAYER_POOL = []]. *)
Definition fresh_world (g : Rng.t) (f : Faker.t) : World := mkWorld [] g f.

(** [main], up to the [finally] block: the pool of 50 players, then the
    loop on an established connection. *)
Definition main (g : Rng.t) (f : Faker.t) (c : Conn.t) (rounds : nat)
  : stop * LoopState :=
  match init_player_pool 50 (fresh_world g f) with
  | (Ok _, w) => main_loop rounds (mkLoop w c 0 [])
  | (Raise e, w) => (Crashed e, mkLoop w c 0 [])
  end.

(** [n] calls of [generate_event] in a row, with the events they return. *)
Fixpoint generate_events (n : nat) : M (list Event.t) :=
  match n with
  | O => ret []
  | S n' => (e <- generate_event ;; es <- generate_events n' ;; ret (e :: es))
  end.

(** ** Vocabulary of the statements

    What follows is not code of the program: names for the draws of a call,
    for runs of calls, and the worlds that the examples run on. *)

(** The weights that [generate_event] reads from [ACTION_TYPES]. *)
Definition catalog_weights : list Z :=
  map (fun kv => weight (snd kv)) ACTION_TYPES.

(** The [k]-th variate that [random.random()] will return from [w] on. *)
Definition variate (w : World) (k : nat) : Q :=
  Qfrac (Rng.tape (rng w) (k + Rng.pos (rng w))).

(** The world after one draw. *)
Definition tick (w : World) : World :=
  mkWorld (PLAYER_POOL w) (Rng.advance (rng w)) (fake w).

(** The world with another pool. *)
Definition with_pool (l : list Player.t) (w : World) : World :=
  mkWorld l (rng w) (fake w).

(** The three updates that [generate_event] makes to the selected player,
    each as a function on the record. *)
Definition add_points (points : Z) (p : Player.t) : Player.t :=
  Player.set_total_points (Player.total_points p + points) p.

Definition count_action (a : string) (p : Player.t) : Player.t :=
  if (a =? "kill")%string || (a =? "headshot")%string
  then Player.set_kills (Player.kills p + 1) p
  else if (a =? "death")%string
       then Player.set_deaths (Player.deaths p + 1) p
       else p.

Definition bump_level (fired : bool) (p : Player.t) : Player.t :=
  if fired && (Player.level p <? 100)
  then Player.set_level (Player.level p + 1) p
  else p.

Definition played (a : string) (points : Z) (fired : bool) (p : Player.t)
  : Player.t :=
  bump_level fired (count_action a (add_points points p)).

(** The draws of one call, read off the tape: the index of the player, the
    points, and the 5% roll (the fourth variate, when the action is not
    [level_up]). *)
Definition selected_index (w : World) : nat :=
  Z.to_nat
    (Qfloor (variate w 0 * inject_Z (Z.of_nat (length (PLAYER_POOL w))))).

Definition drawn_points (info : ActionInfo) (w : World) : Z :=
  fst (points_range info)
  + Qfloor (variate w 2
            * inject_Z (snd (points_range info) + 1 - fst (points_range info))).

Definition roll_fires (w : World) : bool := Qltb (variate w 3) (5 # 100).

(** [call w ev w' p p']: from [w], [generate_event] returns [ev] and leaves
    [w']; the player it selected was [p] before the call and is [p'] after
    it. *)
Definition call (w : World) (ev : Event.t) (w' : World) (p p' : Player.t)
  : Prop :=
  generate_event w = (Ok ev, w')
  /\ PLAYER_POOL w !! selected_index w = Some p
  /\ PLAYER_POOL w' !! selected_index w = Some p'.

(** A world to run the program on: two players, and a tape whose first
    cells select the second player, the action [death] and the low end of
    its range. *)
Definition sample_tape (n : nat) : Q :=
  nth n [1 # 2; 36 # 100; 0; 1 # 100; 14 # 15; 7 # 8]%Q 0%Q.

Definition sample_world : World :=
  mkWorld [ Player.mk "PLAYER_0000" "alice" 1 0 0 0;
            Player.mk "PLAYER_0001" "bob" 99 0 0 0 ]
          (Rng.mk sample_tape 0) (Faker.mk (fun _ => "carol") 0).

(** The points that the events of [evs] carry for the player [id]. *)
Fixpoint credited (id : string) (evs : list Event.t) : Z :=
  match evs with
  | [] => 0
  | e :: evs' =>
      (if (Event.player_id e =? id)%string then Event.points e else 0)
      + credited id evs'
  end.

(** [calls w evs w']: successive calls of [generate_event] lead from [w] to
    [w'] and return the events [evs], in this order. *)
Inductive calls : World -> list Event.t -> World -> Prop :=
| calls_nil w : calls w [] w
| calls_cons w ev w1 evs w2 :
    generate_event w = (Ok ev, w1) -> calls w1 evs w2 ->
    calls w (ev :: evs) w2.

(** The number that a string of decimal digits denotes, leading zeros
    allowed; [None] when there is another character. *)
Definition nat_of_digits (s : string) : option nat :=
  option_map Nat.of_uint (NilEmpty.uint_of_string s).

(** [fresh i p]: [p] is the record that [init_player_pool] builds at round
    [i], whatever name and level were drawn. *)
Definition fresh (i : nat) (p : Player.t) : Prop :=
  Player.player_id p = "PLAYER_" ++ format_04d i
  /\ 1 <= Player.level p <= 50
  /\ Player.total_points p = 0
  /\ Player.kills p = 0
  /\ Player.deaths p = 0.

Definition sample_rng : Rng.t := Rng.mk sample_tape 0.
Definition sample_faker : Faker.t := Faker.mk (fun _ => "carol") 0.

(** A connection whose next call, the [execute] of the coming insertion,
    raises, and whose later calls go through. *)
Definition failing_conn : Conn.t :=
  Conn.mk [] [] (fun k => Nat.eqb k 0) 0.


(** The event of the first call on [sample_world], and the world it
    leaves. *)
Definition sample_event : Event.t :=
  Event.mk "PLAYER_0001" "bob" "death" (-25) 100 (Some "Grenade") "de_ancient".

Definition sample_world_after : World :=
  mkWorld [ Player.mk "PLAYER_0000" "alice" 1 0 0 0;
            Player.mk "PLAYER_0001" "bob" 100 (-25) 0 1 ]
          (Rng.mk sample_tape 6) (Faker.mk (fun _ => "carol") 0).


(** [points_ge p q]: [p] has at least the points of [q]. *)
Definition points_ge (p q : Player.t) : Prop :=
  Player.total_points q <= Player.total_points p.

(** The players of [l] that have [v] points, in the order of [l]. *)
Definition with_points (v : Z) (l : list Player.t) : list Player.t :=
  filter (fun p => Player.total_points p = v) l.

(** The sum of a list of weights. *)
Definition total_weight (l : list Z) : Z := foldr Z.add 0 l.



(** Whether the variate [u] makes [generate_event] select the action [a]. *)
Definition picks (a : string) (u : Q) : bool :=
  match choices_pick (keys ACTION_TYPES) catalog_weights u with
  | Ok b => (b =? a)%string
  | Raise _ => false
  end.

(** The number of [k < n] that satisfy [P]. *)
Fixpoint count_below (P : nat -> bool) (n : nat) : nat :=
  match n with
  | O => O
  | S n' => ((if P n' then 1 else 0) + count_below P n')%nat
  end.

(** The variates [k / n] for [k < n], with [n] a multiple of the total
    weight, are evenly spread over [0, 1).  [count_picks a m] is the number
    of them that select [a] when [n] is [m] times the total weight. *)
Definition grid (m : nat) : nat :=
  (Z.to_nat (total_weight catalog_weights) * m)%nat.

Definition grid_variate (m k : nat) : Q := Z.of_nat k # Pos.of_nat (grid m).

Definition count_picks (a : string) (m : nat) : nat :=
  count_below (fun k => picks a (grid_variate m k)) (grid m).

(** ** [connect_to_db] *)

(** What one call of [psycopg2.connect] does: it hands out a connection,
    raises [psycopg2.OperationalError], or raises something else. *)
Inductive connect_outcome : Type :=
| Connected (c : Conn.t)
| RefusedOperational
| RefusedOther.



(** The database server as [connect_to_db] meets it: what each call of
    [psycopg2.connect] will do, the number of calls made so far, and the
    seconds spent in [time.sleep]. *)
Module Net.
Record t : Type := mk {
  server : nat -> connect_outcome;
  made : nat;
  slept : Z
}.
End Net.




(** ** [print_statistics]: the kill/death ratio *)

(** [p['kills'] / p['deaths'] if p['deaths'] > 0 else p['kills']], the
    division taken exactly. *)
Definition kd_ratio (p : Player.t) : Q :=
  if 0 <? Player.deaths p
  then Player.kills p # Z.to_pos (Player.deaths p)
  else inject_Z (Player.kills p).

(** ** More vocabulary for the statements *)

(** The number of variates that a call of [generate_event] reads when it
    selects the action [a]. *)
Definition draws (a : string) : nat :=
  if (a =? "level_up")%string then 4%nat
  else if str_in a ["kill"; "headshot"; "death"] then 6%nat
  else 5%nat.

(** What an event says about a player: when it carries the identifier of
    [p], the record of [p] with the event's level, its points added and its
    action counted; [p] itself otherwise. *)
Definition apply_event (e : Event.t) (p : Player.t) : Player.t :=
  if (Event.player_id e =? Player.player_id p)%string
  then Player.mk (Player.player_id p) (Player.player_name p) (Event.level e)
         (Player.total_points p + Event.points e)
         (Player.kills p
          + (if (Event.action_type e =? "kill")%string
                || (Event.action_type e =? "headshot")%string
             then 1 else 0))
         (Player.deaths p
          + (if (Event.action_type e =? "death")%string then 1 else 0))
  else p.

Definition replay (evs : list Event.t) (p : Player.t) : Player.t :=
  fold_left (fun q e => apply_event e q) evs p.

(** The number of events of [evs] that carry the identifier [id]. *)
Fixpoint selections (id : string) (evs : list Event.t) : Z :=
  match evs with
  | [] => 0
  | e :: evs' =>
      (if (Event.player_id e =? id)%string then 1 else 0) + selections id evs'
  end.

(** The events of a trace that [insert_event] stored. *)
Fixpoint stored (tr : list (Event.t * option bool)) : list Event.t :=
  match tr with
  | [] => []
  | (e, Some true) :: tr' => e :: stored tr'
  | _ :: tr' => stored tr'
  end.

(** A connection on which no coming call raises. *)
Definition healthy (c : Conn.t) : Prop :=
  forall k, (Conn.pos c <= k)%nat -> Conn.faults c k = false.



(** A connection to an empty table on which no call raises, and the loop
    about to start on it. *)
Definition healthy_conn : Conn.t := Conn.mk [] [] (fun _ => false) 0.

Definition healthy_loop : LoopState := mkLoop sample_world healthy_conn 0 [].

(** * Properties *)

(** ** Variates and the draws made from them *)

(** The variates are the rationals of [0, 1), each of them possible. *)

Lemma Qfrac_range (q : Q) : (0 <= Qfrac q)%Q /\ (Qfrac q < 1)%Q.
Proof.
  unfold Qfrac. pose proof (Qfloor_le q) as Hle.
  pose proof (Qlt_floor q) as Hlt.
  rewrite inject_Z_plus in Hlt. change (inject_Z 1) with 1%Q in Hlt.
  split; lra.
Qed.

Lemma Qfrac_id (q : Q) : (0 <= q)%Q -> (q < 1)%Q -> (Qfrac q == q)%Q.
Proof.
  intros H0 H1. unfold Qfrac.
  assert (Qfloor q = 0) as ->.
  { pose proof (Qfloor_le q) as Hle. pose proof (Qlt_floor q) as Hlt.
    rewrite inject_Z_plus in Hlt. change (inject_Z 1) with 1%Q in Hlt.
    assert (Qfloor q < 1).
    { rewrite Zlt_Qlt. change (inject_Z 1) with 1%Q. lra. }
    assert (-1 < Qfloor q).
    { rewrite Zlt_Qlt. change (inject_Z (-1)) with (-1 # 1)%Q. lra. }
    lia. }
  change (inject_Z 0) with 0%Q. ring.
Qed.

Lemma Qltb_lt (x y : Q) : Qltb x y = true <-> (x < y)%Q.
Proof.
  unfold Qltb. rewrite negb_true_iff, <- not_true_iff_false, Qle_bool_iff.
  split; [apply Qnot_le_lt | apply Qlt_not_le].
Qed.

Lemma Qltb_ge (x y : Q) : Qltb x y = false <-> (y <= x)%Q.
Proof.
  unfold Qltb. rewrite negb_false_iff. apply Qle_bool_iff.
Qed.

(** A variate scaled by [n > 0] and floored is an index below [n]. *)
Lemma scaled_floor_range (u : Q) (n : Z) :
  (0 <= u)%Q -> (u < 1)%Q -> 0 < n ->
  0 <= Qfloor (u * inject_Z n) < n.
Proof.
  intros H0 H1 Hn.
  assert (0 < inject_Z n)%Q as HnQ.
  { change 0%Q with (inject_Z 0). rewrite <- Zlt_Qlt. exact Hn. }
  assert (0 <= u * inject_Z n)%Q as Hlo.
  { apply Qmult_le_0_compat; [exact H0 | apply Qlt_le_weak; exact HnQ]. }
  assert (u * inject_Z n < inject_Z n)%Q as Hhi.
  { rewrite <- (Qmult_1_l (inject_Z n)) at 2.
    apply Qmult_lt_compat_r; assumption. }
  split.
  - change 0 with (Qfloor 0). apply Qfloor_resp_le. exact Hlo.
  - rewrite Zlt_Qlt. eapply Qle_lt_trans; [apply Qfloor_le | exact Hhi].
Qed.

(** ** The binary search *)

(** On a window inside the list the search reads no cell out of range and
    answers an index of the window, whatever the list holds. *)
Lemma bisect_loop_bounds (fuel : nat) (a : list Z) (x : Q) (lo hi : nat) :
  (lo <= hi)%nat -> (hi <= length a)%nat ->
  exists i, bisect_loop fuel a x lo hi = Ok i /\ (lo <= i <= hi)%nat.
Proof.
  revert lo hi.
  induction fuel as [|fuel IH]; intros lo hi Hlh Hha; cbn [bisect_loop].
  - exists lo. split; [reflexivity | lia].
  - destruct (Nat.ltb_spec lo hi) as [Hlt|Hge].
    + assert ((lo + hi) / 2 < hi)%nat as Hmid
        by (apply Nat.Div0.div_lt_upper_bound; lia).
      assert (lo <= (lo + hi) / 2)%nat as Hmid'
        by (apply Nat.div_le_lower_bound; lia).
      destruct (lookup_lt_is_Some_2 a ((lo + hi) / 2)) as [am ->]; [lia|].
      destruct (Qltb x (inject_Z am)).
      * destruct (IH lo ((lo + hi) / 2)%nat) as (i & -> & Hi); [lia | lia |].
        exists i. split; [reflexivity | lia].
      * destruct (IH ((lo + hi) / 2 + 1)%nat hi) as (i & -> & Hi);
          [lia | lia |].
        exists i. split; [reflexivity | lia].
    + exists lo. split; [reflexivity | lia].
Qed.

(** ** The action catalogue *)

Lemma for_each_weights (w : World) :
  for_each (fun a => info <- getitem ACTION_TYPES a ;; ret (weight info))
    (keys ACTION_TYPES) w = (Ok catalog_weights, w).
Proof. reflexivity. Qed.

Lemma catalog_table :
  choices_table (keys ACTION_TYPES) catalog_weights
  = Ok ([35; 70; 80; 88; 95; 98; 100], 100).
Proof. reflexivity. Qed.

(** Whatever the variate, [random.choices] answers a key of the
    catalogue. *)
Lemma catalog_pick_total (u : Q) :
  exists a info,
    choices_pick (keys ACTION_TYPES) catalog_weights u = Ok a
    /\ (a, info) ∈ ACTION_TYPES.
Proof.
  unfold choices_pick. rewrite catalog_table.
  change (exists a info,
    result_bind (bisect [35; 70; 80; 88; 95; 98; 100]
                   (u * inject_Z 100)%Q 0 6)
      (fun i => match keys ACTION_TYPES !! i with
                | Some x => Ok x
                | None => Raise IndexError
                end) = Ok a /\ (a, info) ∈ ACTION_TYPES).
  destruct (bisect_loop_bounds 6 [35; 70; 80; 88; 95; 98; 100]
              (u * inject_Z 100)%Q 0 6) as (i & Hb & Hi);
    [lia | simpl; lia |].
  unfold bisect. change (6 - 0)%nat with 6%nat. rewrite Hb.
  cbn [result_bind].
  destruct (lookup_lt_is_Some_2 ACTION_TYPES i) as [[a info] Hai].
  { simpl. lia. }
  exists a, info. split.
  - unfold keys. rewrite list_lookup_fmap, Hai. reflexivity.
  - eapply list_elem_of_lookup_2. exact Hai.
Qed.

(** ** Running the primitives *)

Lemma bind_ok {A B} (m : M A) (k : A -> M B) (w w' : World) (a : A) :
  m w = (Ok a, w') -> bind m k w = k a w'.
Proof. unfold bind. intros ->. reflexivity. Qed.

Lemma variate_tick (w : World) (k : nat) : variate (tick w) k = variate w (S k).
Proof. unfold variate, tick. simpl. rewrite Nat.add_succ_r. reflexivity. Qed.

Lemma pool_tick (w : World) : PLAYER_POOL (tick w) = PLAYER_POOL w.
Proof. reflexivity. Qed.

Lemma fake_tick (w : World) : fake (tick w) = fake w.
Proof. reflexivity. Qed.

Lemma pool_with_pool (l : list Player.t) (w : World) :
  PLAYER_POOL (with_pool l w) = l.
Proof. reflexivity. Qed.

Lemma fake_with_pool (l : list Player.t) (w : World) :
  fake (with_pool l w) = fake w.
Proof. reflexivity. Qed.

Lemma variate_with_pool (l : list Player.t) (w : World) (k : nat) :
  variate (with_pool l w) k = variate w k.
Proof. reflexivity. Qed.

Lemma variate_range (w : World) (k : nat) :
  (0 <= variate w k)%Q /\ (variate w k < 1)%Q.
Proof. apply Qfrac_range. Qed.

Lemma random_random_run (w : World) :
  random_random w = (Ok (variate w 0), tick w).
Proof. reflexivity. Qed.

Lemma randbelow_run (n : Z) (w : World) :
  randbelow n w = (Ok (Qfloor (variate w 0 * inject_Z n)), tick w).
Proof. reflexivity. Qed.

Lemma randint_run (a b : Z) (w : World) :
  a <= b ->
  randint a b w
  = (Ok (a + Qfloor (variate w 0 * inject_Z (b + 1 - a))), tick w).
Proof.
  intros Hab. unfold randint, randrange.
  destruct (Z.ltb_spec 0 (b + 1 - a)) as [_|Hw]; [reflexivity | lia].
Qed.

Lemma randint_range (a b : Z) (w : World) :
  a <= b -> a <= a + Qfloor (variate w 0 * inject_Z (b + 1 - a)) <= b.
Proof.
  intros Hab. destruct (variate_range w 0) as [H0 H1].
  pose proof (scaled_floor_range _ (b + 1 - a) H0 H1). lia.
Qed.

Lemma random_index_run {A} (l : list A) (w : World) :
  l <> [] ->
  random_index l w
  = (Ok (Z.to_nat (Qfloor (variate w 0 * inject_Z (Z.of_nat (length l))))),
     tick w).
Proof. intros Hl. destruct l; [congruence | reflexivity]. Qed.

Lemma random_index_range {A} (l : list A) (w : World) :
  l <> [] ->
  (Z.to_nat (Qfloor (variate w 0 * inject_Z (Z.of_nat (length l))))
   < length l)%nat.
Proof.
  intros Hl. destruct (variate_range w 0) as [H0 H1].
  assert (0 < Z.of_nat (length l)) as Hn by (destruct l; [congruence | simpl; lia]).
  pose proof (scaled_floor_range _ _ H0 H1 Hn). lia.
Qed.

Lemma random_choice_run {A} (l : list A) (w : World) :
  l <> [] -> exists x, random_choice l w = (Ok x, tick w) /\ x ∈ l.
Proof.
  intros Hl. unfold random_choice.
  rewrite (bind_ok _ _ _ _ _ (random_index_run l w Hl)).
  destruct (lookup_lt_is_Some_2 l _ (random_index_range l w Hl)) as [x Hx].
  exists x. unfold subscript. rewrite Hx. split; [reflexivity |].
  eapply list_elem_of_lookup_2; exact Hx.
Qed.

Lemma update_player_run (i : nat) (f : Player.t -> Player.t) (w : World) :
  update_player i f w = (Ok tt, with_pool (alter f i (PLAYER_POOL w)) w).
Proof. reflexivity. Qed.

Lemma read_player_run (i : nat) (p : Player.t) (w : World) :
  PLAYER_POOL w !! i = Some p -> read_player i w = (Ok p, w).
Proof.
  intros Hp. unfold read_player, bind, get_pool, subscript. rewrite Hp.
  reflexivity.
Qed.

Lemma catalog_choices_run (w : World) :
  exists a info,
    random_choices (keys ACTION_TYPES) catalog_weights w = (Ok [a], tick w)
    /\ choices_pick (keys ACTION_TYPES) catalog_weights (variate w 0) = Ok a
    /\ (a, info) ∈ ACTION_TYPES.
Proof.
  destruct (catalog_pick_total (variate w 0)) as (a & info & Hpick & Hin).
  exists a, info. split; [| split; assumption].
  unfold random_choices. unfold choices_pick in Hpick.
  rewrite catalog_table in *. cbn [result_bind] in Hpick.
  unfold bind at 1. cbn [lift].
  rewrite (bind_ok _ _ _ _ _ (random_random_run w)).
  unfold bind, lift. rewrite Hpick. reflexivity.
Qed.

(** ** One call of [generate_event], step by step *)

Lemma catalog_assoc (a : string) (info : ActionInfo) :
  (a, info) ∈ ACTION_TYPES -> assoc ACTION_TYPES a = Some info.
Proof.
  unfold ACTION_TYPES. intros H.
  repeat (apply elem_of_cons in H as [H|H]; [injection H as -> ->; reflexivity |]).
  inversion H.
Qed.

Lemma catalog_range (a : string) (info : ActionInfo) :
  (a, info) ∈ ACTION_TYPES ->
  fst (points_range info) <= snd (points_range info).
Proof.
  unfold ACTION_TYPES. intros H.
  repeat (apply elem_of_cons in H as [H|H]; [injection H as -> ->; simpl; lia |]).
  inversion H.
Qed.

Lemma alter_insert_lookup (f : Player.t -> Player.t) (i : nat)
    (l : list Player.t) (p : Player.t) :
  l !! i = Some p -> alter f i l = <[i := f p]> l.
Proof.
  intros Hp. apply list_eq. intros j.
  destruct (decide (i = j)) as [<-|Hne].
  - rewrite list_lookup_alter_eq, Hp.
    rewrite list_lookup_insert_eq by (eapply lookup_lt_Some; exact Hp).
    reflexivity.
  - rewrite list_lookup_alter_ne, list_lookup_insert_ne by assumption.
    reflexivity.
Qed.

Lemma count_block_run (a : string) (i : nat) (w : World) :
  (if (a =? "kill")%string || (a =? "headshot")%string
   then update_player i (fun p => Player.set_kills (Player.kills p + 1) p)
   else if (a =? "death")%string
        then update_player i
               (fun p => Player.set_deaths (Player.deaths p + 1) p)
        else ret tt) w
  = (Ok tt, with_pool (alter (count_action a) i (PLAYER_POOL w)) w).
Proof.
  unfold count_action.
  destruct ((a =? "kill")%string || (a =? "headshot")%string).
  - apply update_player_run.
  - destruct (a =? "death")%string.
    + apply update_player_run.
    + unfold ret, with_pool. rewrite list_alter_id by reflexivity.
      destruct w; reflexivity.
Qed.

Lemma roll_run (a : string) (w : World) :
  (if (a =? "level_up")%string then ret true
   else (r <- random_random ;; ret (Qltb r (5 # 100)))) w
  = (Ok ((a =? "level_up")%string || Qltb (variate w 0) (5 # 100)),
     if (a =? "level_up")%string then w else tick w).
Proof. destruct (a =? "level_up")%string; reflexivity. Qed.

Lemma level_block_run (fired : bool) (i : nat) (p : Player.t) (w : World) :
  PLAYER_POOL w !! i = Some p ->
  (if fired
   then (p <- read_player i ;;
         if Player.level p <? 100
         then update_player i
                (fun p => Player.set_level (Player.level p + 1) p)
         else ret tt)
   else ret tt) w
  = (Ok tt, with_pool (<[i := bump_level fired p]> (PLAYER_POOL w)) w).
Proof.
  intros Hp. unfold bump_level. destruct fired; cbn [andb].
  - rewrite (bind_ok _ _ _ _ _ (read_player_run i p w Hp)).
    destruct (Player.level p <? 100).
    + rewrite update_player_run.
      rewrite (alter_insert_lookup _ i _ p Hp). reflexivity.
    + unfold ret, with_pool. rewrite list_insert_id by exact Hp.
      destruct w; reflexivity.
  - unfold ret, with_pool. rewrite list_insert_id by exact Hp.
    destruct w; reflexivity.
Qed.

Lemma weapon_run (a : string) (w : World) :
  exists weapon,
    (if str_in a ["kill"; "headshot"; "death"]
     then (wp <- random_choice WEAPONS ;; ret (Some wp))
     else ret None) w
    = (Ok weapon, if str_in a ["kill"; "headshot"; "death"] then tick w else w)
    /\ (if str_in a ["kill"; "headshot"; "death"]
        then exists wp, weapon = Some wp /\ wp ∈ WEAPONS
        else weapon = None).
Proof.
  destruct (str_in a ["kill"; "headshot"; "death"]).
  - destruct (random_choice_run WEAPONS w) as (wp & Hrun & Hin); [discriminate|].
    exists (Some wp). rewrite (bind_ok _ _ _ _ _ Hrun).
    split; [reflexivity | exists wp; split; [reflexivity | exact Hin]].
  - exists None. split; reflexivity.
Qed.

Lemma generate_event_spec (w : World) :
  PLAYER_POOL w <> [] ->
  exists p a info weapon map_name w',
    let i := selected_index w in
    let points := drawn_points info w in
    let fired := ((a =? "level_up")%string || roll_fires w) in
    let p' := played a points fired p in
    generate_event w
    = (Ok (Event.mk (Player.player_id p) (Player.player_name p) a points
             (Player.level p') weapon map_name), w')
    /\ PLAYER_POOL w !! i = Some p
    /\ choices_pick (keys ACTION_TYPES) catalog_weights (variate w 1) = Ok a
    /\ (a, info) ∈ ACTION_TYPES
    /\ PLAYER_POOL w' = <[i := p']> (PLAYER_POOL w)
    /\ fake w' = fake w
    /\ (if str_in a ["kill"; "headshot"; "death"]
        then exists wp, weapon = Some wp /\ wp ∈ WEAPONS
        else weapon = None)
    /\ map_name ∈ MAPS.
Proof.
  intros Hne.
  destruct (lookup_lt_is_Some_2 _ _ (random_index_range _ w Hne)) as [p Hp].
  destruct (catalog_choices_run (tick w)) as (a & info & Hch & Hpick & Hin).
  rewrite variate_tick in Hpick.
  pose proof (catalog_range a info Hin) as Hrange.
  exists p, a, info.
  fold (selected_index w) in Hp. unfold drawn_points in *.
  set (i := selected_index w) in *.
  set (points := fst (points_range info) + _).
  set (fired := (a =? "level_up")%string || roll_fires w).
  unfold generate_event.
  rewrite (bind_ok get_pool _ w w (PLAYER_POOL w) eq_refl).
  rewrite (bind_ok _ _ _ _ _ (random_index_run _ w Hne)).
  fold (selected_index w). fold i. cbv zeta.
  rewrite (bind_ok _ _ _ _ _ (for_each_weights _)).
  rewrite (bind_ok _ _ _ _ _ Hch).
  rewrite (bind_ok (subscript [a] 0) _ _ _ a eq_refl).
  unfold getitem at 1. rewrite (catalog_assoc a info Hin).
  rewrite (bind_ok (ret info) _ _ _ info eq_refl).
  subst points. destruct (points_range info) as [lo hi].
  cbn [fst snd] in Hrange |- *.
  rewrite (bind_ok _ _ _ _ _ (randint_run lo hi _ Hrange)).
  rewrite !variate_tick.
  set (points := lo + Qfloor (variate w 2 * inject_Z (hi + 1 - lo))).
  rewrite (bind_ok _ _ _ _ _ (update_player_run _ _ _)).
  rewrite (bind_ok _ _ _ _ _ (count_block_run a _ _)).
  assert (i < length (PLAYER_POOL w))%nat as Hi
    by (eapply lookup_lt_Some; exact Hp).
  set (q := count_action a (add_points points p)).
  assert (played a points fired p = bump_level fired q) as -> by reflexivity.
  match goal with |- context [bind _ _ ?W] =>
    assert (PLAYER_POOL W = <[i:=q]> (PLAYER_POOL w)
            /\ fake W = fake w
            /\ variate W 0 = variate w 3) as (HW0 & HWf0 & HWv);
      [| rewrite (bind_ok _ _ _ _ _ (roll_run a W)); rewrite HWv;
         fold (roll_fires w); fold fired;
         assert (PLAYER_POOL (if (a =? "level_up")%string then W else tick W)
                 = <[i:=q]> (PLAYER_POOL w)
                 /\ fake (if (a =? "level_up")%string then W else tick W)
                    = fake w) as (HW & HWf)
           by (destruct (a =? "level_up")%string; split; assumption);
         set (W1 := if (a =? "level_up")%string then W else tick W) in *;
         clearbody W1; clear HW0 HWf0 HWv ]
  end.
  { rewrite <- !variate_tick.
    rewrite ?pool_with_pool, ?fake_with_pool, ?variate_with_pool, ?pool_tick,
      ?fake_tick.
    rewrite (alter_insert_lookup _ i _ p Hp).
    rewrite (alter_insert_lookup _ i _ (add_points points p))
      by (apply list_lookup_insert_eq; exact Hi).
    rewrite list_insert_insert_eq. auto. }
  match goal with |- context [bind _ _ ?W] =>
    rewrite (bind_ok _ _ _ _ _ (level_block_run fired i q W
      ltac:(rewrite HW; apply list_lookup_insert_eq; exact Hi)));
    destruct (weapon_run a
                (with_pool (<[i:=bump_level fired q]> (PLAYER_POOL W)) W))
      as (weapon & Hw & Hwf)
  end.
  rewrite (bind_ok _ _ _ _ _ Hw). cbv beta.
  match goal with |- context [bind (random_choice MAPS) _ ?W] =>
    destruct (random_choice_run MAPS W) as (m & Hm & Hmin); [discriminate|]
  end.
  rewrite (bind_ok _ _ _ _ _ Hm).
  exists weapon, m. eexists.
  match goal with |- context [bind (read_player i) _ ?W] =>
    assert (PLAYER_POOL W = <[i:=bump_level fired q]> (PLAYER_POOL w)
            /\ fake W = fake w) as (HW' & HWf')
  end.
  { destruct (str_in a ["kill"; "headshot"; "death"]);
      rewrite ?pool_tick, ?fake_tick, ?pool_with_pool, ?fake_with_pool;
      rewrite HW, list_insert_insert_eq; auto. }
  split.
  { rewrite (bind_ok _ _ _ _ _ (read_player_run i (bump_level fired q) _
      ltac:(rewrite HW'; apply list_lookup_insert_eq; exact Hi))).
    unfold ret.
    assert (Player.player_id (bump_level fired q) = Player.player_id p
            /\ Player.player_name (bump_level fired q) = Player.player_name p)
      as [-> ->].
    { unfold bump_level, q, count_action, add_points.
      repeat match goal with |- context [if ?b then _ else _] => destruct b end;
        split; reflexivity. }
    reflexivity. }
  repeat split; assumption.
Qed.

(** The fields of the selected player after the three updates. *)
Lemma played_id a points fired p :
  Player.player_id (played a points fired p) = Player.player_id p.
Proof.
  unfold played, bump_level, count_action, add_points.
  repeat match goal with |- context [if ?b then _ else _] => destruct b end;
    reflexivity.
Qed.

Lemma played_name a points fired p :
  Player.player_name (played a points fired p) = Player.player_name p.
Proof.
  unfold played, bump_level, count_action, add_points.
  repeat match goal with |- context [if ?b then _ else _] => destruct b end;
    reflexivity.
Qed.

Lemma played_total_points a points fired p :
  Player.total_points (played a points fired p)
  = Player.total_points p + points.
Proof.
  unfold played, bump_level, count_action, add_points.
  repeat match goal with |- context [if ?b then _ else _] => destruct b end;
    reflexivity.
Qed.

Lemma played_kills a points fired p :
  Player.kills (played a points fired p)
  = if (a =? "kill")%string || (a =? "headshot")%string
    then Player.kills p + 1 else Player.kills p.
Proof.
  unfold played, bump_level, count_action, add_points.
  repeat match goal with |- context [if ?b then _ else _] => destruct b end;
    reflexivity.
Qed.

Lemma played_deaths a points fired p :
  Player.deaths (played a points fired p)
  = if (a =? "kill")%string || (a =? "headshot")%string
    then Player.deaths p
    else if (a =? "death")%string then Player.deaths p + 1
         else Player.deaths p.
Proof.
  unfold played, bump_level, count_action, add_points.
  repeat match goal with |- context [if ?b then _ else _] => destruct b end;
    reflexivity.
Qed.

Lemma played_level a points fired p :
  Player.level (played a points fired p)
  = if fired && (Player.level p <? 100)
    then Player.level p + 1 else Player.level p.
Proof.
  unfold played, bump_level, count_action, add_points. cbn.
  assert (forall q : Player.t,
            Player.level q = Player.level p ->
            Player.level (if fired && (Player.level q <? 100)
                          then Player.set_level (Player.level q + 1) q else q)
            = if fired && (Player.level p <? 100)
              then Player.level p + 1 else Player.level p) as H.
  { intros q Hq. rewrite Hq.
    destruct (fired && (Player.level p <? 100)); [reflexivity | exact Hq]. }
  apply H.
  repeat match goal with |- context [if ?b then _ else _] => destruct b end;
    reflexivity.
Qed.

(** ** One call of [generate_event]: what the claims say *)

(** The premises shared by the statements on one call. *)
Lemma generate_event_call (w : World) :
  PLAYER_POOL w <> [] ->
  exists ev w' p info,
    let fired := (Event.action_type ev =? "level_up")%string || roll_fires w in
    let p' := played (Event.action_type ev) (Event.points ev) fired p in
    call w ev w' p p'
    /\ PLAYER_POOL w' = <[selected_index w := p']> (PLAYER_POOL w)
    /\ fake w' = fake w
    /\ (Event.action_type ev, info) ∈ ACTION_TYPES
    /\ choices_pick (keys ACTION_TYPES) catalog_weights (variate w 1)
       = Ok (Event.action_type ev)
    /\ Event.points ev = drawn_points info w
    /\ Event.player_id ev = Player.player_id p
    /\ Event.player_name ev = Player.player_name p
    /\ Event.level ev = Player.level p'
    /\ (if str_in (Event.action_type ev) ["kill"; "headshot"; "death"]
        then exists wp, Event.weapon ev = Some wp /\ wp ∈ WEAPONS
        else Event.weapon ev = None)
    /\ Event.map_name ev ∈ MAPS.
Proof.
  intros Hne.
  destruct (generate_event_spec w Hne)
    as (p & a & info & weapon & m & w' & Hrun & Hp & Hpick & Hin & Hpool
        & Hfake & Hweapon & Hmap).
  cbv zeta in Hrun, Hpool.
  eexists _, w', p, info. cbn [Event.action_type Event.points Event.player_id
    Event.player_name Event.level Event.weapon Event.map_name].
  unfold call. rewrite Hrun, Hpool.
  rewrite list_lookup_insert_eq by (eapply lookup_lt_Some; exact Hp).
  cbn [Event.action_type Event.points].
  repeat split; assumption.
Qed.

(** C4.  On a call of [generate_event], an action [kill] or [headshot] adds
    exactly one to the selected player's [kills] and leaves [deaths]; an
    action [death] adds exactly one to [deaths] and leaves [kills]; any
    other action leaves both counters. *)
Theorem generate_event_counts_kills_and_deaths (w : World) :
  PLAYER_POOL w <> [] ->
  exists ev w' p p',
    call w ev w' p p'
    /\ Event.player_id ev = Player.player_id p
    /\ (Event.action_type ev = "kill" \/ Event.action_type ev = "headshot" ->
        Player.kills p' = Player.kills p + 1
        /\ Player.deaths p' = Player.deaths p)
    /\ (Event.action_type ev = "death" ->
        Player.deaths p' = Player.deaths p + 1
        /\ Player.kills p' = Player.kills p)
    /\ (Event.action_type ev <> "kill" ->
        Event.action_type ev <> "headshot" ->
        Event.action_type ev <> "death" ->
        Player.kills p' = Player.kills p
        /\ Player.deaths p' = Player.deaths p).
Proof.
  intros Hne.
  destruct (generate_event_call w Hne) as (ev & w' & p & info & Hcall & H).
  cbv zeta in Hcall, H.
  destruct H as (_ & _ & _ & _ & _ & Hid & _).
  eexists ev, w', p, _. split; [exact Hcall |]. split; [exact Hid |].
  rewrite played_kills, played_deaths.
  destruct (String.eqb_spec (Event.action_type ev) "kill") as [Hk|Hk];
    destruct (String.eqb_spec (Event.action_type ev) "headshot") as [Hh|Hh];
    destruct (String.eqb_spec (Event.action_type ev) "death") as [Hd|Hd];
    cbn [orb]; repeat split; intros; try lia; try congruence;
    repeat match goal with H : _ \/ _ |- _ => destruct H end;
    try lia; congruence.
Qed.

Lemma generate_event_counts_kills_and_deaths_witness :
  PLAYER_POOL sample_world <> []
  /\ exists ev w' p p',
       call sample_world ev w' p p'
       /\ Event.player_id ev = Player.player_id p
       /\ (Event.action_type ev = "kill" \/ Event.action_type ev = "headshot" ->
           Player.kills p' = Player.kills p + 1
           /\ Player.deaths p' = Player.deaths p)
       /\ (Event.action_type ev = "death" ->
           Player.deaths p' = Player.deaths p + 1
           /\ Player.kills p' = Player.kills p)
       /\ (Event.action_type ev <> "kill" ->
           Event.action_type ev <> "headshot" ->
           Event.action_type ev <> "death" ->
           Player.kills p' = Player.kills p
           /\ Player.deaths p' = Player.deaths p).
Proof.
  split; [discriminate |].
  apply (generate_event_counts_kills_and_deaths sample_world). discriminate.
Defined.

(** C5.  The event that [generate_event] returns has a weapon, taken from
    [WEAPONS], exactly when its action is [kill], [headshot] or [death], and
    [None] otherwise; its map is always one of [MAPS]; and its level is the
    level of the selected player after the call. *)
Theorem generate_event_record (w : World) :
  PLAYER_POOL w <> [] ->
  exists ev w' p p',
    call w ev w' p p'
    /\ Event.player_id ev = Player.player_id p'
    /\ (Event.weapon ev <> None <->
        Event.action_type ev = "kill" \/ Event.action_type ev = "headshot"
        \/ Event.action_type ev = "death")
    /\ (forall wp, Event.weapon ev = Some wp -> wp ∈ WEAPONS)
    /\ Event.map_name ev ∈ MAPS
    /\ Event.level ev = Player.level p'.
Proof.
  intros Hne.
  destruct (generate_event_call w Hne) as (ev & w' & p & info & Hcall & H).
  cbv zeta in Hcall, H.
  destruct H as (_ & _ & _ & _ & _ & Hid & _ & Hlevel & Hweapon & Hmap).
  eexists ev, w', p, _. split; [exact Hcall |].
  split; [rewrite played_id; exact Hid |].
  split; [| split; [| split; [exact Hmap | exact Hlevel]]].
  - unfold str_in in Hweapon. cbn [existsb] in Hweapon.
    destruct (String.eqb_spec (Event.action_type ev) "kill") as [Hk|Hk];
      destruct (String.eqb_spec (Event.action_type ev) "headshot") as [Hh|Hh];
      destruct (String.eqb_spec (Event.action_type ev) "death") as [Hd|Hd];
      cbn [orb] in Hweapon;
      try (destruct Hweapon as (wp & -> & _); split; [auto | discriminate]).
    rewrite Hweapon. split; [congruence | intros [?|[?|?]]; congruence].
  - intros wp Hwp.
    destruct (str_in (Event.action_type ev) ["kill"; "headshot"; "death"]).
    + destruct Hweapon as (wp' & Hwp' & Hin). congruence.
    + congruence.
Qed.

Lemma generate_event_record_witness :
  PLAYER_POOL sample_world <> []
  /\ exists ev w' p p',
       call sample_world ev w' p p'
       /\ Event.player_id ev = Player.player_id p'
       /\ (Event.weapon ev <> None <->
           Event.action_type ev = "kill" \/ Event.action_type ev = "headshot"
           \/ Event.action_type ev = "death")
       /\ (forall wp, Event.weapon ev = Some wp -> wp ∈ WEAPONS)
       /\ Event.map_name ev ∈ MAPS
       /\ Event.level ev = Player.level p'.
Proof.
  split; [discriminate |].
  apply (generate_event_record sample_world). discriminate.
Defined.

(** The points of a call lie in the range of its action. *)
Lemma drawn_points_range (a : string) (info : ActionInfo) (w : World) :
  (a, info) ∈ ACTION_TYPES ->
  fst (points_range info) <= drawn_points info w <= snd (points_range info).
Proof.
  intros Hin. pose proof (catalog_range a info Hin) as Hr.
  destruct (variate_range w 2) as [H0 H1].
  pose proof (scaled_floor_range _
    (snd (points_range info) + 1 - fst (points_range info)) H0 H1).
  unfold drawn_points. lia.
Qed.

(** No range of the catalogue contains zero: [death] lies below it, the
    other six actions start at 5 or more. *)
Lemma catalog_signs (a : string) (info : ActionInfo) :
  (a, info) ∈ ACTION_TYPES ->
  (a = "death" /\ points_range info = (-25, -10))
  \/ (a <> "death" /\ 5 <= fst (points_range info)).
Proof.
  unfold ACTION_TYPES. intros H.
  repeat (apply elem_of_cons in H as [H|H];
          [injection H as -> ->;
           first [left; split; [reflexivity | reflexivity]
                 | right; split; [discriminate | simpl; lia]] |]).
  inversion H.
Qed.

(** The record of the selected player changes: its points move. *)
Lemma played_changes (a : string) (info : ActionInfo) (w : World)
    (fired : bool) (p : Player.t) :
  (a, info) ∈ ACTION_TYPES -> played a (drawn_points info w) fired p <> p.
Proof.
  intros Hin Heq. apply (f_equal Player.total_points) in Heq.
  rewrite played_total_points in Heq.
  pose proof (drawn_points_range a info w Hin) as Hr.
  destruct (catalog_signs a info Hin) as [[_ Hd]|[_ Hd]].
  - rewrite Hd in Hr. cbn [fst snd] in Hr. lia.
  - lia.
Qed.

(** C7.  A call of [generate_event] changes the record of the selected
    player and nothing else of the program's state: the pool keeps its
    length and every other record, the selected record keeps its
    [player_id] and [player_name] (so the identifiers of the pool are the
    same), and the [Faker] instance is untouched.  The selected record does
    change: its points move. *)
Theorem generate_event_frame (w : World) :
  PLAYER_POOL w <> [] ->
  exists ev w' p p',
    call w ev w' p p'
    /\ length (PLAYER_POOL w') = length (PLAYER_POOL w)
    /\ (forall j, j <> selected_index w ->
                  PLAYER_POOL w' !! j = PLAYER_POOL w !! j)
    /\ Player.player_id p' = Player.player_id p
    /\ Player.player_name p' = Player.player_name p
    /\ map Player.player_id (PLAYER_POOL w')
       = map Player.player_id (PLAYER_POOL w)
    /\ map Player.player_name (PLAYER_POOL w')
       = map Player.player_name (PLAYER_POOL w)
    /\ p' <> p
    /\ fake w' = fake w.
Proof.
  intros Hne.
  destruct (generate_event_call w Hne) as (ev & w' & p & info & Hcall & H).
  cbv zeta in Hcall, H.
  destruct H as (Hpool & Hfake & Hin & _ & Hpts & _).
  pose proof Hcall as (_ & Hp & _).
  eexists ev, w', p, _. split; [exact Hcall |].
  rewrite Hpool, length_insert, played_id, played_name.
  split; [reflexivity |].
  split; [intros j Hj; apply list_lookup_insert_ne; congruence |].
  split; [reflexivity |]. split; [reflexivity |].
  split; [| split; [| split; [| exact Hfake]]].
  - rewrite list_fmap_insert, played_id. apply list_insert_id.
    rewrite list_lookup_fmap, Hp. reflexivity.
  - rewrite list_fmap_insert, played_name. apply list_insert_id.
    rewrite list_lookup_fmap, Hp. reflexivity.
  - rewrite Hpts. apply (played_changes _ info). exact Hin.
Qed.

Lemma generate_event_frame_witness :
  PLAYER_POOL sample_world <> []
  /\ exists ev w' p p',
       call sample_world ev w' p p'
       /\ length (PLAYER_POOL w') = length (PLAYER_POOL sample_world)
       /\ (forall j, j <> selected_index sample_world ->
                     PLAYER_POOL w' !! j = PLAYER_POOL sample_world !! j)
       /\ Player.player_id p' = Player.player_id p
       /\ Player.player_name p' = Player.player_name p
       /\ map Player.player_id (PLAYER_POOL w')
          = map Player.player_id (PLAYER_POOL sample_world)
       /\ map Player.player_name (PLAYER_POOL w')
          = map Player.player_name (PLAYER_POOL sample_world)
       /\ p' <> p
       /\ fake w' = fake sample_world.
Proof.
  split; [discriminate |].
  apply (generate_event_frame sample_world). discriminate.
Defined.

(** C10.  In [ACTION_TYPES] only [death] has a range with negative values;
    the other six ranges start at 5 or more.  So a call whose action is not
    [death] strictly raises the selected player's [total_points], and a
    call that lowers them is a [death]. *)
Theorem only_death_lowers_points (w : World) :
  PLAYER_POOL w <> [] ->
  (forall a info, (a, info) ∈ ACTION_TYPES ->
                  (fst (points_range info) < 0 <-> a = "death")
                  /\ (a <> "death" -> 5 <= fst (points_range info)))
  /\ length ACTION_TYPES = 7%nat
  /\ exists ev w' p p',
       call w ev w' p p'
       /\ (Event.action_type ev <> "death" ->
           Player.total_points p < Player.total_points p')
       /\ (Player.total_points p' < Player.total_points p ->
           Event.action_type ev = "death")
       /\ (Event.action_type ev = "death" ->
           Player.total_points p' < Player.total_points p)
       /\ (forall j q q',
             PLAYER_POOL w !! j = Some q -> PLAYER_POOL w' !! j = Some q' ->
             Player.total_points q' < Player.total_points q ->
             Event.action_type ev = "death").
Proof.
  intros Hne. split; [| split; [reflexivity |]].
  - intros a info Hin.
    destruct (catalog_signs a info Hin) as [[-> Hd]|[Hnd Hd]].
    + rewrite Hd. cbn [fst]. split; [split; [reflexivity | lia] | congruence].
    + split; [split; [lia | congruence] | intros _; exact Hd].
  - destruct (generate_event_call w Hne) as (ev & w' & p & info & Hcall & H).
    cbv zeta in Hcall, H.
    destruct H as (Hpool & _ & Hin & _ & Hpts & _).
    pose proof Hcall as (_ & Hp & _).
    eexists ev, w', p, _. split; [exact Hcall |].
    rewrite played_total_points, Hpts.
    pose proof (drawn_points_range _ info w Hin) as Hr.
    assert (forall j q q',
              PLAYER_POOL w !! j = Some q -> PLAYER_POOL w' !! j = Some q' ->
              Player.total_points q' < Player.total_points q ->
              drawn_points info w < 0) as Hothers.
    { intros j q q' Hq Hq' Hlt. rewrite Hpool in Hq'.
      destruct (decide (selected_index w = j)) as [<-|Hne'].
      - rewrite list_lookup_insert_eq in Hq'
          by (eapply lookup_lt_Some; exact Hp).
        injection Hq' as <-. rewrite played_total_points, Hpts in Hlt.
        rewrite Hp in Hq. injection Hq as <-. lia.
      - rewrite list_lookup_insert_ne in Hq' by exact Hne'.
        rewrite Hq in Hq'. injection Hq' as <-. lia. }
    destruct (catalog_signs _ info Hin) as [[Ha Hd]|[Ha Hd]].
    + rewrite Hd in Hr. cbn [fst snd] in Hr.
      repeat split; intros; try lia; congruence.
    + split; [intros _; lia |]. split; [intros Hlt; lia |].
      split; [intros Hdeath; congruence |].
      intros j q q' Hq Hq' Hlt. pose proof (Hothers j q q' Hq Hq' Hlt). lia.
Qed.

Lemma only_death_lowers_points_witness :
  PLAYER_POOL sample_world <> []
  /\ (forall a info, (a, info) ∈ ACTION_TYPES ->
                     (fst (points_range info) < 0 <-> a = "death")
                     /\ (a <> "death" -> 5 <= fst (points_range info)))
  /\ length ACTION_TYPES = 7%nat
  /\ exists ev w' p p',
       call sample_world ev w' p p'
       /\ (Event.action_type ev <> "death" ->
           Player.total_points p < Player.total_points p')
       /\ (Player.total_points p' < Player.total_points p ->
           Event.action_type ev = "death")
       /\ (Event.action_type ev = "death" ->
           Player.total_points p' < Player.total_points p)
       /\ (forall j q q',
             PLAYER_POOL sample_world !! j = Some q ->
             PLAYER_POOL w' !! j = Some q' ->
             Player.total_points q' < Player.total_points q ->
             Event.action_type ev = "death").
Proof.
  split; [discriminate |].
  apply (only_death_lowers_points sample_world). discriminate.
Defined.

(** ** Sequences of calls *)

Lemma generate_event_nonempty (w w' : World) (ev : Event.t) :
  PLAYER_POOL w <> [] -> generate_event w = (Ok ev, w') ->
  PLAYER_POOL w' <> [] /\ length (PLAYER_POOL w') = length (PLAYER_POOL w).
Proof.
  intros Hne Hrun.
  destruct (generate_event_call w Hne) as (ev0 & w0 & p & info & Hcall & H).
  cbv zeta in Hcall, H. destruct Hcall as (Hrun0 & _).
  rewrite Hrun in Hrun0. injection Hrun0 as -> ->.
  destruct H as (Hpool & _).
  assert (length (PLAYER_POOL w0) = length (PLAYER_POOL w)) as Hlen
    by (rewrite Hpool; apply length_insert).
  split; [| exact Hlen].
  intros Hnil. rewrite Hnil in Hlen. destruct (PLAYER_POOL w); [congruence | discriminate].
Qed.

(** On a pool that is not empty, any number of calls goes through. *)
Lemma generate_events_calls (n : nat) (w : World) :
  PLAYER_POOL w <> [] ->
  exists evs w',
    generate_events n w = (Ok evs, w') /\ calls w evs w' /\ length evs = n.
Proof.
  revert w. induction n as [|n IH]; intros w Hne.
  - exists [], w. repeat split. constructor.
  - destruct (generate_event_call w Hne) as (ev & w1 & p & info & Hcall & _).
    cbv zeta in Hcall. destruct Hcall as (Hrun & _).
    destruct (generate_event_nonempty w w1 ev Hne Hrun) as [Hne1 _].
    destruct (IH w1 Hne1) as (evs & w2 & Hruns & Hcalls & Hlen).
    exists (ev :: evs), w2. cbn [generate_events].
    rewrite (bind_ok _ _ _ _ _ Hrun), (bind_ok _ _ _ _ _ Hruns).
    split; [reflexivity |]. split; [| cbn; lia].
    econstructor; eassumption.
Qed.

(** What one call does to the player at index [j]. *)
Lemma generate_event_at (w w' : World) (ev : Event.t) (j : nat) (q : Player.t) :
  PLAYER_POOL w <> [] -> generate_event w = (Ok ev, w') ->
  PLAYER_POOL w !! j = Some q ->
  exists q',
    PLAYER_POOL w' !! j = Some q'
    /\ Player.player_id q' = Player.player_id q
    /\ Player.player_name q' = Player.player_name q
    /\ Player.level q <= Player.level q'
    /\ (Player.level q <= 100 -> Player.level q' <= 100)
    /\ Player.kills q <= Player.kills q'
    /\ Player.deaths q <= Player.deaths q'
    /\ (j = selected_index w ->
        Event.player_id ev = Player.player_id q
        /\ Player.total_points q' = Player.total_points q + Event.points ev)
    /\ (j <> selected_index w ->
        q' = q
        /\ exists p, PLAYER_POOL w !! selected_index w = Some p
                     /\ Event.player_id ev = Player.player_id p).
Proof.
  intros Hne Hrun Hq.
  destruct (generate_event_call w Hne) as (ev0 & w0 & p & info & Hcall & H).
  cbv zeta in Hcall, H. destruct Hcall as (Hrun0 & Hp & _).
  rewrite Hrun in Hrun0. injection Hrun0 as <- <-.
  destruct H as (Hpool & _ & _ & _ & _ & Hid & _).
  rewrite Hpool.
  destruct (decide (selected_index w = j)) as [<-|Hj].
  - rewrite Hp in Hq. injection Hq as <-.
    rewrite list_lookup_insert_eq by (eapply lookup_lt_Some; exact Hp).
    eexists. split; [reflexivity |].
    rewrite played_id, played_name, played_level, played_total_points,
      played_kills, played_deaths.
    repeat split; try congruence;
      repeat match goal with |- context [if ?b then _ else _] =>
               destruct b eqn:? end; try lia.
    all: try (apply andb_true_iff in Heqb as [_ Hlt];
              apply Z.ltb_lt in Hlt; lia).
  - rewrite list_lookup_insert_ne by exact Hj.
    exists q. repeat split; try assumption; try lia; try congruence.
    exists p. split; assumption.
Qed.

(** Along a sequence of calls every record keeps its place and its
    identifier, its level never goes down nor past 100, and its points
    grow by what the events of the sequence carry for it. *)
Lemma calls_at (w w' : World) (evs : list Event.t) :
  calls w evs w' ->
  PLAYER_POOL w <> [] ->
  (PLAYER_POOL w' <> []
   /\ length (PLAYER_POOL w') = length (PLAYER_POOL w))
  /\ forall j q,
       PLAYER_POOL w !! j = Some q ->
       exists q',
         PLAYER_POOL w' !! j = Some q'
         /\ Player.player_id q' = Player.player_id q
         /\ Player.level q <= Player.level q'
         /\ (Player.level q <= 100 -> Player.level q' <= 100)
         /\ (NoDup (map Player.player_id (PLAYER_POOL w)) ->
             Player.total_points q'
             = Player.total_points q + credited (Player.player_id q) evs).
Proof.
  induction 1 as [w|w ev w1 evs w2 Hev Hcalls IH]; intros Hne.
  - split; [split; [exact Hne | reflexivity] |]. intros j q Hq. exists q.
    repeat split; try assumption; try lia. intros _. cbn [credited]. lia.
  - destruct (generate_event_nonempty w w1 ev Hne Hev) as [Hne1 Hlen1].
    destruct (IH Hne1) as [[Hne2 Hlen2] IH'].
    split; [split; [exact Hne2 | congruence] |].
    intros j q Hq.
    destruct (generate_event_at w w1 ev j q Hne Hev Hq)
      as (q1 & Hq1 & Hid1 & _ & Hlv1 & Hcap1 & _ & _ & Hsel & Hoth).
    destruct (IH' j q1 Hq1) as (q2 & Hq2 & Hid2 & Hlv2 & Hcap2 & Hpts2).
    exists q2. split; [exact Hq2 |]. split; [congruence |].
    split; [lia |]. split; [intros Hq100; apply Hcap2, Hcap1, Hq100 |].
    intros Hnodup.
    assert (map Player.player_id (PLAYER_POOL w1)
            = map Player.player_id (PLAYER_POOL w)) as Hids.
    { apply list_eq. intros k. rewrite !list_lookup_fmap.
      destruct (PLAYER_POOL w !! k) as [r|] eqn:Hr.
      - destruct (generate_event_at w w1 ev k r Hne Hev Hr)
          as (r1 & Hr1 & Hidr & _). rewrite Hr1. cbn. congruence.
      - apply lookup_ge_None in Hr.
        destruct (generate_event_nonempty w w1 ev Hne Hev) as [_ Hlen].
        rewrite (proj2 (lookup_ge_None _ _)) by lia. reflexivity. }
    rewrite Hpts2 by (rewrite Hids; exact Hnodup).
    rewrite Hid1. cbn [credited].
    destruct (decide (j = selected_index w)) as [Hj|Hj].
    + destruct (Hsel Hj) as [Hev_id ->]. rewrite Hev_id, String.eqb_refl. lia.
    + destruct (Hoth Hj) as (-> & p & Hp & Hev_id).
      assert ((Event.player_id ev =? Player.player_id q)%string = false) as ->;
        [| lia].
      apply String.eqb_neq. rewrite Hev_id. intros Heq. apply Hj.
      eapply NoDup_lookup; [exact Hnodup | |].
      * rewrite list_lookup_fmap, Hq. reflexivity.
      * rewrite list_lookup_fmap, Hp. cbn. congruence.
Qed.

(** C2.  On a call of [generate_event] the level of the selected player
    goes up by exactly one when the action is [level_up] or the 5% roll
    (the fourth variate of the call) succeeds, provided the level is below
    100, and stays as it is otherwise: one increment at most, also when
    both conditions hold.  Hence, along any number of calls, no level goes
    down, and no level that was at most 100 gets past 100. *)
Theorem level_up_rule (w : World) (n : nat) :
  PLAYER_POOL w <> [] ->
  (exists ev w' p p',
     call w ev w' p p'
     /\ ((Event.action_type ev = "level_up" \/ (variate w 3 < 5 # 100)%Q)
         /\ Player.level p < 100 ->
         Player.level p' = Player.level p + 1)
     /\ (~ ((Event.action_type ev = "level_up" \/ (variate w 3 < 5 # 100)%Q)
            /\ Player.level p < 100) ->
         Player.level p' = Player.level p))
  /\ (exists evs w',
        generate_events n w = (Ok evs, w')
        /\ length evs = n
        /\ forall j q,
             PLAYER_POOL w !! j = Some q ->
             exists q',
               PLAYER_POOL w' !! j = Some q'
               /\ Player.level q <= Player.level q'
               /\ (Player.level q <= 100 -> Player.level q' <= 100)).
Proof.
  intros Hne. split.
  - destruct (generate_event_call w Hne) as (ev & w' & p & info & Hcall & _).
    cbv zeta in Hcall. eexists ev, w', p, _. split; [exact Hcall |].
    rewrite played_level. unfold roll_fires.
    destruct (String.eqb_spec (Event.action_type ev) "level_up") as [Ha|Ha];
      destruct (Qltb (variate w 3) (5 # 100)) eqn:Hroll;
      destruct (Z.ltb_spec (Player.level p) 100) as [Hlt|Hge];
      cbn [orb andb];
      try apply Qltb_lt in Hroll; try apply Qltb_ge in Hroll;
      split; intros H; try reflexivity; try lia.
    all: try (exfalso; apply H; split; [auto | exact Hlt]).
    destruct H as [[H|H] _]; [congruence |].
    exfalso. eapply Qlt_not_le; eassumption.
  - destruct (generate_events_calls n w Hne) as (evs & w' & Hrun & Hcalls & Hlen).
    exists evs, w'. split; [exact Hrun |]. split; [exact Hlen |].
    intros j q Hq.
    destruct (calls_at w w' evs Hcalls Hne) as [_ Hat].
    destruct (Hat j q Hq) as (q' & Hq' & _ & Hlv & Hcap & _).
    exists q'. auto.
Qed.

Lemma level_up_rule_witness :
  PLAYER_POOL sample_world <> []
  /\ (exists ev w' p p',
        call sample_world ev w' p p'
        /\ ((Event.action_type ev = "level_up"
             \/ (variate sample_world 3 < 5 # 100)%Q)
            /\ Player.level p < 100 ->
            Player.level p' = Player.level p + 1)
        /\ (~ ((Event.action_type ev = "level_up"
                \/ (variate sample_world 3 < 5 # 100)%Q)
               /\ Player.level p < 100) ->
            Player.level p' = Player.level p))
  /\ (exists evs w',
        generate_events 3 sample_world = (Ok evs, w')
        /\ length evs = 3%nat
        /\ forall j q,
             PLAYER_POOL sample_world !! j = Some q ->
             exists q',
               PLAYER_POOL w' !! j = Some q'
               /\ Player.level q <= Player.level q'
               /\ (Player.level q <= 100 -> Player.level q' <= 100)).
Proof.
  split; [discriminate |].
  apply (level_up_rule sample_world 3). discriminate.
Defined.

(** ** The identifiers of the pool *)

Lemma nat_of_digits_str (i : nat) : nat_of_digits (str_of_nat i) = Some i.
Proof.
  unfold nat_of_digits, str_of_nat. rewrite NilEmpty.usu. cbn [option_map].
  rewrite DecimalNat.Unsigned.of_to. reflexivity.
Qed.

Lemma nat_of_digits_zeros (k : nat) (s : string) :
  nat_of_digits (zeros k ++ s) = nat_of_digits s.
Proof.
  induction k as [|k IH]; [reflexivity |].
  cbn [zeros String.append]. unfold nat_of_digits in *.
  cbn [NilEmpty.uint_of_string].
  assert (forall od, option_map Nat.of_uint (uint_of_char "0" od)
                     = option_map Nat.of_uint od) as H0
    by (intros [d|]; reflexivity).
  rewrite H0. exact IH.
Qed.

Lemma nat_of_digits_format (i : nat) : nat_of_digits (format_04d i) = Some i.
Proof. unfold format_04d. rewrite nat_of_digits_zeros. apply nat_of_digits_str. Qed.

Lemma string_length_app (s t : string) :
  String.length (s ++ t) = (String.length s + String.length t)%nat.
Proof. induction s as [|c s IH]; cbn; [reflexivity | rewrite IH; reflexivity]. Qed.

Lemma zeros_length (k : nat) : String.length (zeros k) = k.
Proof. induction k as [|k IH]; cbn; [reflexivity | rewrite IH; reflexivity]. Qed.

Lemma format_04d_length (i : nat) : (4 <= String.length (format_04d i))%nat.
Proof. unfold format_04d. rewrite string_length_app, zeros_length. lia. Qed.

Lemma format_04d_inj (i j : nat) : format_04d i = format_04d j -> i = j.
Proof.
  intros H. apply (f_equal nat_of_digits) in H.
  rewrite !nat_of_digits_format in H. congruence.
Qed.

Lemma player_id_inj (i j : nat) :
  "PLAYER_" ++ format_04d i = "PLAYER_" ++ format_04d j -> i = j.
Proof. cbn. intros H. apply format_04d_inj. congruence. Qed.

(** ** [init_player_pool] *)

Lemma init_loop_run (l : list nat) (w : World) :
  exists news w',
    for_loop l
      (fun i =>
         name <- fake_user_name ;;
         lvl <- randint 1 50 ;;
         pool_append (Player.mk ("PLAYER_" ++ format_04d i) name lvl 0 0 0)) w
    = (Ok tt, w')
    /\ PLAYER_POOL w' = (PLAYER_POOL w ++ news)%list
    /\ Forall2 fresh l news.
Proof.
  revert w. induction l as [|i l IH]; intros w.
  - exists [], w. split; [reflexivity |].
    split; [rewrite app_nil_r; reflexivity | constructor].
  - cbn [for_loop].
    set (w1 := mkWorld (PLAYER_POOL w) (rng w) (Faker.advance (fake w))).
    set (name := Faker.names (fake w) (Faker.pos (fake w))).
    set (lvl := 1 + Qfloor (variate w1 0 * inject_Z (50 + 1 - 1))).
    set (p := Player.mk ("PLAYER_" ++ format_04d i) name lvl 0 0 0).
    destruct (IH (with_pool (PLAYER_POOL w ++ [p])%list (tick w1)))
      as (news & w' & Hrun & Hpool & Hall).
    exists (p :: news), w'. split; [| split].
    + unfold bind at 1. unfold bind at 1.
      change (fake_user_name w) with (Ok name, w1). cbv iota beta.
      rewrite (bind_ok _ _ _ _ _ (randint_run 1 50 w1 ltac:(lia))).
      change (pool_append p (tick w1))
        with (Ok tt, with_pool (PLAYER_POOL w ++ [p])%list (tick w1)).
      cbv iota beta. exact Hrun.
    + rewrite Hpool. rewrite pool_with_pool, <- app_assoc. reflexivity.
    + constructor; [| exact Hall].
      unfold fresh, p. cbn [Player.player_id Player.level Player.total_points
        Player.kills Player.deaths].
      pose proof (randint_range 1 50 w1 ltac:(lia)). subst lvl. repeat split; lia.
Qed.

Lemma Forall2_fresh_ids (start : nat) (l : list Player.t) (n : nat) :
  Forall2 fresh (seq start n) l ->
  map Player.player_id l
  = map (fun i => "PLAYER_" ++ format_04d i) (seq start n).
Proof.
  revert start l. induction n as [|n IH]; intros start l H.
  - inversion H. reflexivity.
  - cbn [seq] in H. inversion H as [|i p l1 l2 Hp Hrest]; subst.
    cbn [seq map]. destruct Hp as (-> & _). f_equal. cbn [seq]. apply IH. exact Hrest.
Qed.

Lemma fresh_ids_NoDup (n : nat) :
  NoDup (map (fun i => "PLAYER_" ++ format_04d i) (seq 0 n)).
Proof.
  apply NoDup_fmap_2; [| apply NoDup_seq].
  intros i j. apply player_id_inj.
Qed.

(** [init_player_pool], called when the pool is empty as it is when the
    module has been loaded. *)
Lemma init_player_pool_run (size : Z) (g : Rng.t) (f : Faker.t) :
  exists w',
    init_player_pool size (fresh_world g f) = (Ok tt, w')
    /\ Forall2 fresh (seq 0 (Z.to_nat size)) (PLAYER_POOL w').
Proof.
  unfold init_player_pool, range.
  destruct (init_loop_run (seq 0 (Z.to_nat size)) (fresh_world g f))
    as (news & w' & Hrun & Hpool & Hall).
  exists w'. split; [exact Hrun |]. rewrite Hpool. exact Hall.
Qed.

(** C8.  For every size [N >= 1], [init_player_pool(N)] on the empty pool
    builds exactly [N] players; the player at place [i] has the identifier
    [PLAYER_] followed by [i] in decimal, padded with zeros to four
    characters, so that the identifiers run from [PLAYER_0000] on and are
    pairwise distinct; every level lies in [1, 50] and [total_points],
    [kills] and [deaths] are zero. *)
Theorem init_player_pool_spec (size : Z) (g : Rng.t) (f : Faker.t) :
  1 <= size ->
  exists w',
    init_player_pool size (fresh_world g f) = (Ok tt, w')
    /\ Z.of_nat (length (PLAYER_POOL w')) = size
    /\ (forall i : nat,
          Z.of_nat i < size ->
          exists p,
            PLAYER_POOL w' !! i = Some p
            /\ Player.player_id p = "PLAYER_" ++ format_04d i
            /\ nat_of_digits (format_04d i) = Some i
            /\ (4 <= String.length (format_04d i))%nat
            /\ 1 <= Player.level p <= 50
            /\ Player.total_points p = 0
            /\ Player.kills p = 0
            /\ Player.deaths p = 0)
    /\ NoDup (map Player.player_id (PLAYER_POOL w'))
    /\ (exists p, PLAYER_POOL w' !! 0%nat = Some p
                  /\ Player.player_id p = "PLAYER_0000").
Proof.
  intros Hsize.
  destruct (init_player_pool_run size g f) as (w' & Hrun & Hall).
  exists w'. split; [exact Hrun |].
  assert (length (PLAYER_POOL w') = Z.to_nat size) as Hlen.
  { apply Forall2_length in Hall. rewrite length_seq in Hall. lia. }
  assert (forall i : nat,
            Z.of_nat i < size ->
            exists p, PLAYER_POOL w' !! i = Some p /\ fresh i p) as Hat.
  { intros i Hi.
    destruct (lookup_lt_is_Some_2 (PLAYER_POOL w') i) as [p Hp]; [lia |].
    exists p. split; [exact Hp |].
    eapply (Forall2_lookup_lr _ _ _ i i p Hall); [| exact Hp].
    rewrite lookup_seq. split; [reflexivity | lia]. }
  split; [lia |]. split; [| split].
  - intros i Hi. destruct (Hat i Hi) as (p & Hp & Hid & Hlv & Htp & Hk & Hd).
    exists p. repeat split; try assumption; try lia.
    + apply nat_of_digits_format.
    + apply format_04d_length.
  - rewrite (Forall2_fresh_ids 0 _ _ Hall). apply fresh_ids_NoDup.
  - destruct (Hat 0%nat ltac:(lia)) as (p & Hp & Hid & _).
    exists p. split; [exact Hp | exact Hid].
Qed.

Lemma init_player_pool_spec_witness :
  1 <= 50
  /\ exists w',
       init_player_pool 50 (fresh_world sample_rng sample_faker) = (Ok tt, w')
       /\ Z.of_nat (length (PLAYER_POOL w')) = 50
       /\ (forall i : nat,
             Z.of_nat i < 50 ->
             exists p,
               PLAYER_POOL w' !! i = Some p
               /\ Player.player_id p = "PLAYER_" ++ format_04d i
               /\ nat_of_digits (format_04d i) = Some i
               /\ (4 <= String.length (format_04d i))%nat
               /\ 1 <= Player.level p <= 50
               /\ Player.total_points p = 0
               /\ Player.kills p = 0
               /\ Player.deaths p = 0)
       /\ NoDup (map Player.player_id (PLAYER_POOL w'))
       /\ (exists p, PLAYER_POOL w' !! 0%nat = Some p
                     /\ Player.player_id p = "PLAYER_0000").
Proof.
  split; [lia |].
  apply (init_player_pool_spec 50 sample_rng sample_faker). lia.
Defined.

(** ** [insert_event] and the main loop *)



Lemma generate_event_empty (w : World) :
  PLAYER_POOL w = [] -> generate_event w = (Raise IndexError, w).
Proof.
  intros Hnil. unfold generate_event.
  rewrite (bind_ok get_pool _ w w (PLAYER_POOL w) eq_refl).
  rewrite Hnil. reflexivity.
Qed.

Lemma generate_event_ok_nonempty (w w' : World) (ev : Event.t) :
  generate_event w = (Ok ev, w') -> PLAYER_POOL w <> [].
Proof.
  intros Hrun Hnil. rewrite (generate_event_empty w Hnil) in Hrun.
  discriminate.
Qed.

(** A round of the loop makes one call of [generate_event], whatever
    becomes of the event, and touches the pool in no other way. *)
Lemma loop_body_calls (s s' : LoopState) (r : result unit) :
  PLAYER_POOL (world s) <> [] -> loop_body s = (r, s') ->
  exists ev o,
    generate_event (world s) = (Ok ev, world s')
    /\ trace s' = (trace s ++ [(ev, o)])%list.
Proof.
  intros Hne Hbody.
  destruct (generate_event_call (world s) Hne)
    as (ev & w1 & p & info & (Hrun & _) & _).
  unfold loop_body in Hbody. rewrite Hrun in Hbody.
  destruct (insert_event (conn s) ev) as [[[|]|e] c1];
    injection Hbody as <- <-; cbn [world trace].
  - exists ev, (Some true). split; [| reflexivity].
    destruct (_ =? 0); [| exact Hrun].
    rewrite Hrun. destruct w1; reflexivity.
  - exists ev, (Some false). split; [exact Hrun | reflexivity].
  - exists ev, None. split; [exact Hrun | reflexivity].
Qed.

Lemma main_loop_calls (rounds : nat) (s s' : LoopState) (st : stop) :
  PLAYER_POOL (world s) <> [] -> main_loop rounds s = (st, s') ->
  exists new,
    calls (world s) (map fst new) (world s')
    /\ trace s' = (trace s ++ new)%list
    /\ (length new <= rounds)%nat.
Proof.
  revert s. induction rounds as [|rounds IH]; intros s Hne Hloop.
  - injection Hloop as <- <-. exists []. cbn.
    split; [constructor | split; [rewrite app_nil_r; reflexivity | lia]].
  - cbn [main_loop] in Hloop.
    destruct (loop_body s) as [r s1] eqn:Hbody.
    destruct (loop_body_calls s s1 r Hne Hbody) as (ev & o & Hrun & Htrace).
    destruct r as [[]|e].
    + destruct (generate_event_nonempty _ _ _ Hne Hrun) as [Hne1 _].
      destruct (IH s1 Hne1 Hloop) as (new & Hcalls & Htrace' & Hlen).
      exists ((ev, o) :: new). cbn [map fst length]. split; [| split].
      * econstructor; eassumption.
      * rewrite Htrace', Htrace, <- app_assoc. reflexivity.
      * lia.
    + injection Hloop as <- <-. exists [(ev, o)]. cbn [map fst length].
      split; [| split; [exact Htrace | lia]].
      econstructor; [exact Hrun | constructor].
Qed.



(** The other two ends of a round: a stored event is counted, and an
    exception that leaves [insert_event] (the rollback raised) reaches the
    [except Exception] of [main], which ends the loop; the counter and the
    pool are then as in the handled failure. *)
Lemma committed_insert_is_counted
    (s : LoopState) (ev : Event.t) (w1 : World) (c1 : Conn.t) :
  generate_event (world s) = (Ok ev, w1) ->
  insert_event (conn s) ev = (Ok true, c1) ->
  exists s',
    loop_body s = (Ok tt, s')
    /\ event_count s' = event_count s + 1
    /\ PLAYER_POOL (world s') = PLAYER_POOL w1.
Proof.
  intros Hrun Hins. unfold loop_body. rewrite Hrun, Hins.
  eexists. split; [reflexivity |]. cbn [event_count world].
  split; [reflexivity |].
  destruct (_ =? 0); reflexivity.
Qed.

Lemma raising_rollback_ends_loop
    (s : LoopState) (rounds : nat) (ev : Event.t) (w1 : World) (c1 : Conn.t)
    (e : exn) :
  generate_event (world s) = (Ok ev, w1) ->
  insert_event (conn s) ev = (Raise e, c1) ->
  exists s',
    main_loop (S rounds) s = (Crashed e, s')
    /\ event_count s' = event_count s
    /\ world s' = w1.
Proof.
  intros Hrun Hins. cbn [main_loop]. unfold loop_body. rewrite Hrun, Hins.
  eexists. split; [reflexivity |]. split; reflexivity.
Qed.

(** C1.  Along any number of calls of [generate_event] on a pool with
    distinct identifiers, every player's [total_points] grows by exactly
    the sum of the points of the events that selected that player.  In
    [main], where the pool starts with zero points, a player's
    [total_points] is that sum over every event generated so far, whether
    [insert_event] stored it, gave up on it or raised. *)
Theorem total_points_is_the_sum
    (w : World) (n : nat)
    (g : Rng.t) (f : Faker.t) (c : Conn.t) (rounds : nat) :
  PLAYER_POOL w <> [] ->
  NoDup (map Player.player_id (PLAYER_POOL w)) ->
  (exists evs w',
     generate_events n w = (Ok evs, w')
     /\ length evs = n
     /\ length (PLAYER_POOL w') = length (PLAYER_POOL w)
     /\ forall j q,
          PLAYER_POOL w !! j = Some q ->
          exists q',
            PLAYER_POOL w' !! j = Some q'
            /\ Player.player_id q' = Player.player_id q
            /\ Player.total_points q'
               = Player.total_points q + credited (Player.player_id q) evs)
  /\ (exists st s',
        main g f c rounds = (st, s')
        /\ length (PLAYER_POOL (world s')) = 50%nat
        /\ (length (trace s') <= rounds)%nat
        /\ forall q,
             q ∈ PLAYER_POOL (world s') ->
             Player.total_points q
             = credited (Player.player_id q) (map fst (trace s'))).
Proof.
  intros Hne Hnodup. split.
  - destruct (generate_events_calls n w Hne)
      as (evs & w' & Hrun & Hcalls & Hlen).
    destruct (calls_at w w' evs Hcalls Hne) as [[_ Hlen'] Hat].
    exists evs, w'. split; [exact Hrun |]. split; [exact Hlen |].
    split; [exact Hlen' |].
    intros j q Hq. destruct (Hat j q Hq) as (q' & Hq' & Hid & _ & _ & Hpts).
    exists q'. split; [exact Hq' |]. split; [exact Hid | exact (Hpts Hnodup)].
  - unfold main.
    destruct (init_player_pool_run 50 g f) as (w0 & Hinit & Hfresh).
    rewrite Hinit.
    assert (length (PLAYER_POOL w0) = 50%nat) as Hlen0.
    { apply Forall2_length in Hfresh. rewrite length_seq in Hfresh.
      rewrite <- Hfresh. reflexivity. }
    assert (PLAYER_POOL w0 <> []) as Hne0.
    { intros Hnil. rewrite Hnil in Hlen0. discriminate. }
    assert (NoDup (map Player.player_id (PLAYER_POOL w0))) as Hnodup0.
    { rewrite (Forall2_fresh_ids 0 _ _ Hfresh). apply fresh_ids_NoDup. }
    destruct (main_loop rounds (mkLoop w0 c 0 [])) as [st s'] eqn:Hloop.
    destruct (main_loop_calls rounds (mkLoop w0 c 0 []) s' st Hne0 Hloop)
      as (new & Hcalls & Htrace & Hrounds).
    cbn [world trace app] in Hcalls, Htrace.
    destruct (calls_at _ _ _ Hcalls Hne0) as [[_ Hlen'] Hat].
    exists st, s'. split; [reflexivity |].
    split; [congruence |]. split; [rewrite Htrace; exact Hrounds |].
    intros q' Hin. apply list_elem_of_lookup in Hin as [j Hq'].
    destruct (lookup_lt_is_Some_2 (PLAYER_POOL w0) j) as [q Hq].
    { rewrite <- Hlen'. eapply lookup_lt_Some. exact Hq'. }
    destruct (Hat j q Hq) as (q'' & Hq'' & Hid & _ & _ & Hpts).
    rewrite Hq' in Hq''. injection Hq'' as <-.
    rewrite (Hpts Hnodup0), Htrace, Hid.
    assert (Player.total_points q = 0) as ->; [| lia].
    assert (exists i, fresh i q) as (i & Hf).
    { destruct (Forall2_lookup_r _ _ _ j q Hfresh Hq) as (i & _ & Hf).
      exists i. exact Hf. }
    destruct Hf as (_ & _ & Hz & _). exact Hz.
Qed.

Lemma total_points_is_the_sum_witness :
  PLAYER_POOL sample_world <> []
  /\ NoDup (map Player.player_id (PLAYER_POOL sample_world))
  /\ (exists evs w',
        generate_events 3 sample_world = (Ok evs, w')
        /\ length evs = 3%nat
        /\ length (PLAYER_POOL w') = length (PLAYER_POOL sample_world)
        /\ forall j q,
             PLAYER_POOL sample_world !! j = Some q ->
             exists q',
               PLAYER_POOL w' !! j = Some q'
               /\ Player.player_id q' = Player.player_id q
               /\ Player.total_points q'
                  = Player.total_points q
                    + credited (Player.player_id q) evs)
  /\ (exists st s',
        main sample_rng sample_faker failing_conn 4 = (st, s')
        /\ length (PLAYER_POOL (world s')) = 50%nat
        /\ (length (trace s') <= 4)%nat
        /\ forall q,
             q ∈ PLAYER_POOL (world s') ->
             Player.total_points q
             = credited (Player.player_id q) (map fst (trace s'))).
Proof.
  assert (PLAYER_POOL sample_world <> []) as Hne by discriminate.
  assert (NoDup (map Player.player_id (PLAYER_POOL sample_world))) as Hnd.
  { cbn. repeat constructor; rewrite ?list_elem_of_In; cbn; intuition discriminate. }
  split; [exact Hne |]. split; [exact Hnd |].
  exact (total_points_is_the_sum sample_world 3 sample_rng sample_faker
           failing_conn 4 Hne Hnd).
Defined.

(** ** The ranking of [print_statistics] *)

Lemma insert_desc_perm (p : Player.t) (l : list Player.t) :
  Permutation (insert_desc p l) (p :: l).
Proof.
  induction l as [|q l IH]; cbn [insert_desc]; [reflexivity |].
  destruct (Player.total_points p <? Player.total_points q); [| reflexivity].
  rewrite IH. apply perm_swap.
Qed.

Lemma sorted_by_points_desc_perm (l : list Player.t) :
  Permutation (sorted_by_points_desc l) l.
Proof.
  induction l as [|p l IH]; cbn; [reflexivity |].
  unfold sorted_by_points_desc in IH.
  rewrite insert_desc_perm, IH. reflexivity.
Qed.

Lemma insert_desc_sorted (p : Player.t) (l : list Player.t) :
  StronglySorted points_ge l -> StronglySorted points_ge (insert_desc p l).
Proof.
  induction 1 as [|q l Hl IH Hq]; cbn [insert_desc].
  - repeat constructor.
  - destruct (Z.ltb_spec (Player.total_points p) (Player.total_points q))
      as [Hlt|Hge].
    + constructor; [exact IH |].
      rewrite (insert_desc_perm p l). constructor; [| exact Hq].
      unfold points_ge. lia.
    + constructor; [constructor; assumption |].
      constructor; [exact Hge |].
      eapply Forall_impl; [exact Hq |]. unfold points_ge. intros r Hr. lia.
Qed.

Lemma sorted_by_points_desc_sorted (l : list Player.t) :
  StronglySorted points_ge (sorted_by_points_desc l).
Proof.
  induction l as [|p l IH]; cbn; [constructor |].
  apply insert_desc_sorted. exact IH.
Qed.

Lemma insert_desc_stable (v : Z) (p : Player.t) (l : list Player.t) :
  with_points v (insert_desc p l) = with_points v (p :: l).
Proof.
  unfold with_points.
  induction l as [|q l IH]; cbn [insert_desc]; [reflexivity |].
  destruct (Z.ltb_spec (Player.total_points p) (Player.total_points q))
    as [Hlt|Hge]; [| reflexivity].
  rewrite (filter_cons _ q), IH, !filter_cons.
  repeat case_decide; try reflexivity; lia.
Qed.

Lemma sorted_by_points_desc_stable (v : Z) (l : list Player.t) :
  with_points v (sorted_by_points_desc l) = with_points v l.
Proof.
  induction l as [|p l IH]; [reflexivity |].
  change (sorted_by_points_desc (p :: l))
    with (insert_desc p (sorted_by_points_desc l)).
  rewrite insert_desc_stable. unfold with_points in *.
  rewrite !filter_cons, IH. reflexivity.
Qed.

(** C9.  The ranking that [print_statistics] prints, [sorted(...)[:n]]
    with [n = 3], holds the [n] players with the most points (all of them
    when the pool has fewer), in descending order; the players left out
    have at most the points of those kept; and players with equal points
    stand in the order of the pool, the first of them being the ones
    kept. *)
Theorem top_n_spec (n : nat) (pool : list Player.t) (w : World) :
  print_statistics w = (Ok (top_n 3 (PLAYER_POOL w)), w)
  /\ length (top_n n pool) = Nat.min n (length pool)
  /\ StronglySorted points_ge (top_n n pool)
  /\ exists rest,
       Permutation (top_n n pool ++ rest) pool
       /\ (forall p q, p ∈ top_n n pool -> q ∈ rest -> points_ge p q)
       /\ forall v,
            (with_points v (top_n n pool) ++ with_points v rest)%list
            = with_points v pool.
Proof.
  split; [reflexivity |]. unfold top_n.
  pose proof (sorted_by_points_desc_sorted pool) as Hsorted.
  rewrite <- (take_drop n (sorted_by_points_desc pool)) in Hsorted.
  apply StronglySorted_app in Hsorted as (Hcross & Htake & _).
  split; [| split; [exact Htake |]].
  - rewrite length_take.
    rewrite (Permutation_length (sorted_by_points_desc_perm pool)).
    reflexivity.
  - exists (drop n (sorted_by_points_desc pool)). split; [| split].
    + rewrite take_drop. apply sorted_by_points_desc_perm.
    + intros p q Hp Hq. apply Hcross; assumption.
    + intros v. unfold with_points. rewrite <- filter_app, take_drop.
      apply sorted_by_points_desc_stable.
Qed.

(** ** Weighted choice *)









Section weighted_choice.
Context {A : Type} (population : list A) (weights : list Z).
Hypothesis Hlen : length weights = length population.
Hypothesis Hpos : Forall (fun w => 0 <= w) weights.




End weighted_choice.

(** ** The action of an event *)














Example count_picks_kill : count_picks "kill" 2 = 70%nat.
Proof. vm_compute. reflexivity. Qed.

Example pick_one_half :
  choices_pick (keys ACTION_TYPES) catalog_weights (1 # 2) = Ok "death".
Proof. vm_compute. reflexivity. Qed.

(** ** Runs on concrete inputs *)

Example format_04d_7 : format_04d 7 = "0007".
Proof. reflexivity. Qed.

Example format_04d_12345 : format_04d 12345 = "12345".
Proof. vm_compute. reflexivity. Qed.

(** The first call on [sample_world]: [bob], at level 99, dies for 25
    points and, the roll being below 0.05, reaches level 100. *)
Example first_call :
  generate_event sample_world = (Ok sample_event, sample_world_after).
Proof. vm_compute. reflexivity. Qed.

(** Two players with 5 points: the one that comes first in the pool is
    ranked first, and is the one kept when only two places are printed. *)
Example ranking_breaks_ties_by_pool_order :
  map Player.player_name
    (top_n 2 [ Player.mk "PLAYER_0000" "ann" 1 5 0 0;
               Player.mk "PLAYER_0001" "ben" 1 9 0 0;
               Player.mk "PLAYER_0002" "cat" 1 5 0 0 ])
  = ["ben"; "ann"].
Proof. reflexivity. Qed.

(** The statement raises and so does the rollback: the exception leaves
    [insert_event]. *)
Example rollback_raises :
  fst (insert_event (Conn.mk [] [] (fun _ => true) 0) sample_event)
  = Raise DatabaseError.
Proof. reflexivity. Qed.

(** * Further properties of the code *)

(** ** One call, read as an event applied to the pool *)

Lemma played_as_event (ev : Event.t) (fired : bool) (p : Player.t) :
  Event.player_id ev = Player.player_id p ->
  Event.level ev
  = Player.level (played (Event.action_type ev) (Event.points ev) fired p) ->
  played (Event.action_type ev) (Event.points ev) fired p = apply_event ev p.
Proof.
  intros Hid Hlevel. unfold apply_event. rewrite Hid, String.eqb_refl.
  set (p' := played _ _ _ _) in *.
  rewrite <- (played_id (Event.action_type ev) (Event.points ev) fired p).
  rewrite <- (played_name (Event.action_type ev) (Event.points ev) fired p).
  rewrite <- (played_total_points (Event.action_type ev) (Event.points ev)
                fired p).
  rewrite Hlevel. fold p'.
  assert (Player.kills p'
          = Player.kills p
            + (if (Event.action_type ev =? "kill")%string
                  || (Event.action_type ev =? "headshot")%string
               then 1 else 0)) as <-.
  { subst p'. rewrite played_kills.
    destruct ((Event.action_type ev =? "kill")%string
              || (Event.action_type ev =? "headshot")%string); lia. }
  assert (Player.deaths p'
          = Player.deaths p
            + (if (Event.action_type ev =? "death")%string then 1 else 0))
    as <-.
  { subst p'. rewrite played_deaths.
    destruct (String.eqb_spec (Event.action_type ev) "kill") as [Hk|Hk];
      destruct (String.eqb_spec (Event.action_type ev) "headshot") as [Hh|Hh];
      destruct (String.eqb_spec (Event.action_type ev) "death") as [Hd|Hd];
      cbn [orb]; try lia; congruence. }
  destruct p'; reflexivity.
Qed.

(** What a call does at each place of the pool: the event applied to the
    selected record, nothing elsewhere; with the bounds that the catalogue
    and the level rule give for the event. *)
Lemma generate_event_applied
    (w w' : World) (ev : Event.t) (j : nat) (q : Player.t) :
  NoDup (map Player.player_id (PLAYER_POOL w)) ->
  generate_event w = (Ok ev, w') ->
  PLAYER_POOL w !! j = Some q ->
  PLAYER_POOL w' !! j = Some (apply_event ev q)
  /\ Player.player_id (apply_event ev q) = Player.player_id q
  /\ -25 <= Event.points ev <= 250
  /\ (Event.player_id ev = Player.player_id q ->
      Player.level q <= Event.level ev <= Player.level q + 1)
  /\ map Player.player_id (PLAYER_POOL w')
     = map Player.player_id (PLAYER_POOL w).
Proof.
  intros Hnodup Hrun Hq.
  pose proof (generate_event_ok_nonempty _ _ _ Hrun) as Hne.
  destruct (generate_event_call w Hne) as (ev0 & w0 & p & info & Hcall & H).
  cbv zeta in Hcall, H. destruct Hcall as (Hrun0 & Hp & _).
  rewrite Hrun in Hrun0. injection Hrun0 as <- <-.
  destruct H as (Hpool & _ & Hin & _ & Hpts & Hid & _ & Hlevel & _).
  assert (-25 <= Event.points ev <= 250) as Hbounds.
  { rewrite Hpts. pose proof (drawn_points_range _ info w Hin) as Hr.
    revert Hr. generalize (drawn_points info w). intros z.
    unfold ACTION_TYPES in Hin.
    repeat (apply elem_of_cons in Hin as [Hin|Hin];
            [injection Hin as _ ->; cbn [points_range fst snd]; lia |]).
    inversion Hin. }
  assert (map Player.player_id (PLAYER_POOL w')
          = map Player.player_id (PLAYER_POOL w)) as Hids.
  { rewrite Hpool, list_fmap_insert, played_id. apply list_insert_id.
    rewrite list_lookup_fmap, Hp. reflexivity. }
  assert (Player.player_id (apply_event ev q) = Player.player_id q) as Hsame.
  { unfold apply_event.
    destruct (Event.player_id ev =? Player.player_id q)%string; reflexivity. }
  assert (forall r, Event.player_id ev = Player.player_id r ->
                    r = p ->
                    Player.level r <= Event.level ev <= Player.level r + 1)
    as Hstep.
  { intros r _ ->. rewrite Hlevel, played_level.
    destruct (_ && (Player.level p <? 100)); lia. }
  rewrite (played_as_event ev _ p Hid Hlevel) in Hpool.
  destruct (decide (selected_index w = j)) as [<-|Hj].
  - rewrite Hp in Hq. injection Hq as <-.
    split; [| split; [exact Hsame | split; [exact Hbounds |
                                             split; [| exact Hids]]]].
    + rewrite Hpool. apply list_lookup_insert_eq.
      eapply lookup_lt_Some; exact Hp.
    + intros Heq. apply Hstep; [exact Heq | reflexivity].
  - assert (Event.player_id ev <> Player.player_id q) as Hother.
    { rewrite Hid. intros Heq. apply Hj.
      eapply NoDup_lookup; [exact Hnodup | |].
      - rewrite list_lookup_fmap, Hp. reflexivity.
      - rewrite list_lookup_fmap, Hq. cbn. congruence. }
    assert (apply_event ev q = q) as Hkeep.
    { unfold apply_event. apply String.eqb_neq in Hother. rewrite Hother.
      reflexivity. }
    split; [| split; [exact Hsame | split; [exact Hbounds |
                                             split; [| exact Hids]]]].
    + rewrite Hkeep, Hpool, list_lookup_insert_ne by exact Hj. exact Hq.
    + intros Heq. congruence.
Qed.

Lemma apply_event_id (ev : Event.t) (q : Player.t) :
  Player.player_id (apply_event ev q) = Player.player_id q.
Proof.
  unfold apply_event.
  destruct (Event.player_id ev =? Player.player_id q)%string; reflexivity.
Qed.

Lemma replay_id (evs : list Event.t) (q : Player.t) :
  Player.player_id (replay evs q) = Player.player_id q.
Proof.
  revert q. induction evs as [|ev evs IH]; intros q; [reflexivity |].
  cbn [replay fold_left]. fold (replay evs (apply_event ev q)).
  rewrite IH. apply apply_event_id.
Qed.

(** A call maps the pool through its event. *)
Lemma generate_event_maps_pool (w w' : World) (ev : Event.t) :
  NoDup (map Player.player_id (PLAYER_POOL w)) ->
  generate_event w = (Ok ev, w') ->
  PLAYER_POOL w' = map (apply_event ev) (PLAYER_POOL w)
  /\ NoDup (map Player.player_id (PLAYER_POOL w')).
Proof.
  intros Hnodup Hrun.
  pose proof (generate_event_ok_nonempty _ _ _ Hrun) as Hne.
  destruct (generate_event_nonempty _ _ _ Hne Hrun) as [_ Hlen].
  assert (PLAYER_POOL w' = map (apply_event ev) (PLAYER_POOL w)) as Hmap.
  { apply list_eq. intros j. rewrite list_lookup_fmap.
    destruct (PLAYER_POOL w !! j) as [q|] eqn:Hq.
    - destruct (generate_event_applied w w' ev j q Hnodup Hrun Hq)
        as (Hq' & _). rewrite Hq'. reflexivity.
    - apply lookup_ge_None in Hq. apply lookup_ge_None. lia. }
  split; [exact Hmap |].
  rewrite Hmap, <- list_fmap_compose.
  erewrite list_fmap_ext; [exact Hnodup |].
  intros i q _. cbn. apply apply_event_id.
Qed.

Lemma calls_replay (w w' : World) (evs : list Event.t) :
  calls w evs w' ->
  NoDup (map Player.player_id (PLAYER_POOL w)) ->
  PLAYER_POOL w' = map (replay evs) (PLAYER_POOL w).
Proof.
  induction 1 as [w|w ev w1 evs w2 Hev _ IH]; intros Hnodup.
  - cbn [replay fold_left]. rewrite list_fmap_id. reflexivity.
  - destruct (generate_event_maps_pool w w1 ev Hnodup Hev) as [Hmap Hnodup1].
    rewrite (IH Hnodup1), Hmap, <- list_fmap_compose. reflexivity.
Qed.

(** X1.  The events tell the whole story of the pool: after any number of
    calls of [generate_event] on a pool with distinct identifiers, each
    record is the initial record with the events carrying its identifier
    applied in order (points added, kills and deaths counted, level set to
    the level of the event).  The same holds in the main loop for the
    events of the trace, stored or not. *)
Theorem pool_is_replay_of_events
    (w : World) (n : nat) (c : Conn.t) (count : Z) (rounds : nat) :
  PLAYER_POOL w <> [] ->
  NoDup (map Player.player_id (PLAYER_POOL w)) ->
  (exists evs w',
     generate_events n w = (Ok evs, w')
     /\ PLAYER_POOL w' = map (replay evs) (PLAYER_POOL w))
  /\ (exists st s',
        main_loop rounds (mkLoop w c count []) = (st, s')
        /\ PLAYER_POOL (world s')
           = map (replay (map fst (trace s'))) (PLAYER_POOL w)).
Proof.
  intros Hne Hnodup. split.
  - destruct (generate_events_calls n w Hne) as (evs & w' & Hrun & Hcalls & _).
    exists evs, w'. split; [exact Hrun |].
    apply calls_replay; assumption.
  - destruct (main_loop rounds (mkLoop w c count [])) as [st s'] eqn:Hloop.
    destruct (main_loop_calls rounds (mkLoop w c count []) s' st Hne Hloop)
      as (new & Hcalls & Htrace' & _).
    exists st, s'. split; [reflexivity |].
    rewrite Htrace'. cbn [trace world app] in Hcalls |- *.
    apply calls_replay; assumption.
Qed.

Lemma pool_is_replay_of_events_witness :
  PLAYER_POOL sample_world <> []
  /\ NoDup (map Player.player_id (PLAYER_POOL sample_world))
  /\ (exists evs w',
        generate_events 3 sample_world = (Ok evs, w')
        /\ PLAYER_POOL w' = map (replay evs) (PLAYER_POOL sample_world))
  /\ (exists st s',
        main_loop 4 (mkLoop sample_world failing_conn 7 []) = (st, s')
        /\ PLAYER_POOL (world s')
           = map (replay (map fst (trace s'))) (PLAYER_POOL sample_world)).
Proof.
  assert (PLAYER_POOL sample_world <> []) as Hne by discriminate.
  assert (NoDup (map Player.player_id (PLAYER_POOL sample_world))) as Hnd.
  { cbn. repeat constructor; rewrite ?list_elem_of_In; cbn;
      intuition discriminate. }
  split; [exact Hne |]. split; [exact Hnd |].
  exact (pool_is_replay_of_events sample_world 3 failing_conn 7 4 Hne Hnd).
Defined.

(** ** Bounds along a run *)

Lemma selections_range (id : string) (evs : list Event.t) :
  0 <= selections id evs <= Z.of_nat (length evs).
Proof.
  induction evs as [|e evs IH]; cbn [selections length]; [lia |].
  destruct (Event.player_id e =? id)%string; lia.
Qed.

(** Each event that selects a player moves its points by -25 to 250, its
    level by 0 or 1, and one of its two counters by at most one. *)
Lemma calls_bounds (w w' : World) (evs : list Event.t) :
  calls w evs w' ->
  NoDup (map Player.player_id (PLAYER_POOL w)) ->
  forall j q,
    PLAYER_POOL w !! j = Some q ->
    exists q',
      PLAYER_POOL w' !! j = Some q'
      /\ Player.total_points q - 25 * selections (Player.player_id q) evs
         <= Player.total_points q'
         <= Player.total_points q + 250 * selections (Player.player_id q) evs
      /\ Player.level q <= Player.level q'
         <= Player.level q + selections (Player.player_id q) evs
      /\ Player.kills q <= Player.kills q'
      /\ Player.deaths q <= Player.deaths q'
      /\ Player.kills q' + Player.deaths q'
         <= Player.kills q + Player.deaths q
            + selections (Player.player_id q) evs.
Proof.
  induction 1 as [w|w ev w1 evs w2 Hev _ IH]; intros Hnodup j q Hq.
  - exists q. cbn [selections]. split; [exact Hq |]. lia.
  - destruct (generate_event_applied w w1 ev j q Hnodup Hev Hq)
      as (Hq1 & Hid1 & Hpts & Hlevel & Hids).
    destruct (IH ltac:(rewrite Hids; exact Hnodup) j _ Hq1)
      as (q2 & Hq2 & Htp & Hlv & Hk & Hd & Hkd).
    exists q2. split; [exact Hq2 |].
    rewrite Hid1 in Htp, Hlv, Hkd. cbn [selections].
    revert Htp Hlv Hk Hd Hkd. unfold apply_event.
    destruct (String.eqb_spec (Event.player_id ev) (Player.player_id q))
      as [Heq|Hneq]; cbn [Player.total_points Player.level Player.kills
                          Player.deaths]; [| lia].
    specialize (Hlevel Heq).
    destruct ((Event.action_type ev =? "kill")%string
              || (Event.action_type ev =? "headshot")%string) eqn:Hkill;
      destruct (String.eqb_spec (Event.action_type ev) "death") as [Hde|Hde];
      try lia.
    exfalso. rewrite Hde in Hkill. discriminate.
Qed.

(** X2.  Along [n] calls of [generate_event] on a pool with distinct
    identifiers, a player selected [k] times (so [k <= n]) ends with points
    between [-25 * k] and [250 * k] from where it started, a level between
    its old level and that plus [k], and [kills] and [deaths] that have not
    gone down and have together grown by at most [k]. *)
Theorem run_bounds (w : World) (n : nat) :
  PLAYER_POOL w <> [] ->
  NoDup (map Player.player_id (PLAYER_POOL w)) ->
  exists evs w',
    generate_events n w = (Ok evs, w')
    /\ length evs = n
    /\ forall j q,
         PLAYER_POOL w !! j = Some q ->
         exists q',
           PLAYER_POOL w' !! j = Some q'
           /\ 0 <= selections (Player.player_id q) evs <= Z.of_nat n
           /\ Player.total_points q
              - 25 * selections (Player.player_id q) evs
              <= Player.total_points q'
              <= Player.total_points q
                 + 250 * selections (Player.player_id q) evs
           /\ Player.level q <= Player.level q'
              <= Player.level q + selections (Player.player_id q) evs
           /\ Player.kills q <= Player.kills q'
           /\ Player.deaths q <= Player.deaths q'
           /\ Player.kills q' + Player.deaths q'
              <= Player.kills q + Player.deaths q
                 + selections (Player.player_id q) evs.
Proof.
  intros Hne Hnodup.
  destruct (generate_events_calls n w Hne) as (evs & w' & Hrun & Hcalls & Hlen).
  exists evs, w'. split; [exact Hrun |]. split; [exact Hlen |].
  intros j q Hq.
  destruct (calls_bounds w w' evs Hcalls Hnodup j q Hq) as (q' & Hq' & Hrest).
  exists q'. split; [exact Hq' |].
  split; [rewrite <- Hlen; apply selections_range | exact Hrest].
Qed.

Lemma run_bounds_witness :
  PLAYER_POOL sample_world <> []
  /\ NoDup (map Player.player_id (PLAYER_POOL sample_world))
  /\ exists evs w',
       generate_events 3 sample_world = (Ok evs, w')
       /\ length evs = 3%nat
       /\ forall j q,
            PLAYER_POOL sample_world !! j = Some q ->
            exists q',
              PLAYER_POOL w' !! j = Some q'
              /\ 0 <= selections (Player.player_id q) evs <= Z.of_nat 3
              /\ Player.total_points q
                 - 25 * selections (Player.player_id q) evs
                 <= Player.total_points q'
                 <= Player.total_points q
                    + 250 * selections (Player.player_id q) evs
              /\ Player.level q <= Player.level q'
                 <= Player.level q + selections (Player.player_id q) evs
              /\ Player.kills q <= Player.kills q'
              /\ Player.deaths q <= Player.deaths q'
              /\ Player.kills q' + Player.deaths q'
                 <= Player.kills q + Player.deaths q
                    + selections (Player.player_id q) evs.
Proof.
  assert (PLAYER_POOL sample_world <> []) as Hne by discriminate.
  assert (NoDup (map Player.player_id (PLAYER_POOL sample_world))) as Hnd.
  { cbn. repeat constructor; rewrite ?list_elem_of_In; cbn;
      intuition discriminate. }
  split; [exact Hne |]. split; [exact Hnd |].
  exact (run_bounds sample_world 3 Hne Hnd).
Defined.

(** ** [init_player_pool] on any pool *)

Lemma init_loop_appends (l : list nat) (w : World) :
  exists news w',
    for_loop l
      (fun i =>
         name <- fake_user_name ;;
         lvl <- randint 1 50 ;;
         pool_append (Player.mk ("PLAYER_" ++ format_04d i) name lvl 0 0 0)) w
    = (Ok tt, w')
    /\ PLAYER_POOL w' = (PLAYER_POOL w ++ news)%list
    /\ Forall2 fresh l news
    /\ (forall k p,
          news !! k = Some p ->
          Player.player_name p
          = Faker.names (fake w) (k + Faker.pos (fake w))
          /\ Player.level p = 1 + Qfloor (variate w k * inject_Z 50))
    /\ fake w'
       = Faker.mk (Faker.names (fake w)) (length l + Faker.pos (fake w))
    /\ rng w' = Rng.mk (Rng.tape (rng w)) (length l + Rng.pos (rng w)).
Proof.
  revert w. induction l as [|i l IH]; intros w.
  - exists [], w. split; [reflexivity |].
    split; [rewrite app_nil_r; reflexivity |]. split; [constructor |].
    split; [intros k p Hk; discriminate |].
    cbn [length Nat.add]. split; [destruct (fake w) | destruct (rng w)];
      reflexivity.
  - cbn [for_loop].
    set (w1 := mkWorld (PLAYER_POOL w) (rng w) (Faker.advance (fake w))).
    set (name := Faker.names (fake w) (Faker.pos (fake w))).
    set (lvl := 1 + Qfloor (variate w1 0 * inject_Z (50 + 1 - 1))).
    set (p := Player.mk ("PLAYER_" ++ format_04d i) name lvl 0 0 0).
    destruct (IH (with_pool (PLAYER_POOL w ++ [p])%list (tick w1)))
      as (news & w' & Hrun & Hpool & Hall & Hnames & Hfake & Hrng).
    exists (p :: news), w'. split; [| split; [| split; [| split; [| split]]]].
    + unfold bind at 1. unfold bind at 1.
      change (fake_user_name w) with (Ok name, w1). cbv iota beta.
      rewrite (bind_ok _ _ _ _ _ (randint_run 1 50 w1 ltac:(lia))).
      change (pool_append p (tick w1))
        with (Ok tt, with_pool (PLAYER_POOL w ++ [p])%list (tick w1)).
      cbv iota beta. exact Hrun.
    + rewrite Hpool. rewrite pool_with_pool, <- app_assoc. reflexivity.
    + constructor; [| exact Hall].
      unfold fresh, p. cbn [Player.player_id Player.level Player.total_points
        Player.kills Player.deaths].
      pose proof (randint_range 1 50 w1 ltac:(lia)). subst lvl.
      repeat split; lia.
    + intros k q Hk. destruct k as [|k].
      * injection Hk as <-. split; reflexivity.
      * destruct (Hnames k q Hk) as [Hn Hl]. split.
        -- rewrite Hn. cbn [fake with_pool tick w1 Faker.advance Faker.names
             Faker.pos]. unfold with_pool, tick, w1. cbn [fake Faker.advance
             Faker.names Faker.pos]. rewrite Nat.add_succ_r. reflexivity.
        -- rewrite Hl, variate_with_pool, variate_tick. reflexivity.
    + rewrite Hfake. unfold with_pool, tick, w1. cbn [fake Faker.advance
        Faker.names Faker.pos length]. rewrite Nat.add_succ_r. reflexivity.
    + rewrite Hrng. unfold with_pool, tick, w1. cbn [rng Rng.advance
        Rng.tape Rng.pos length]. rewrite Nat.add_succ_r. reflexivity.
Qed.

(** X3.  [init_player_pool(size)] appends to whatever the pool holds: the
    records that were there stay in front, and [size] new ones follow (none
    when [size <= 0], the state being then untouched).  The new record of
    rank [k] counts from zero again: its identifier is made of [k], its
    name is the [k]-th name that the [Faker] instance hands out, its level
    the [k]-th draw of [randint(1, 50)]; the call uses up [size] names and
    [size] variates. *)
Theorem init_player_pool_appends (size : Z) (w : World) :
  exists news w',
    init_player_pool size w = (Ok tt, w')
    /\ PLAYER_POOL w' = (PLAYER_POOL w ++ news)%list
    /\ length news = Z.to_nat size
    /\ (forall k p,
          news !! k = Some p ->
          Player.player_id p = "PLAYER_" ++ format_04d k
          /\ Player.player_name p
             = Faker.names (fake w) (k + Faker.pos (fake w))
          /\ Player.level p = 1 + Qfloor (variate w k * inject_Z 50)
          /\ 1 <= Player.level p <= 50
          /\ Player.total_points p = 0
          /\ Player.kills p = 0
          /\ Player.deaths p = 0)
    /\ fake w'
       = Faker.mk (Faker.names (fake w))
           (Z.to_nat size + Faker.pos (fake w))
    /\ rng w'
       = Rng.mk (Rng.tape (rng w)) (Z.to_nat size + Rng.pos (rng w))
    /\ (size <= 0 -> w' = w).
Proof.
  unfold init_player_pool, range.
  destruct (init_loop_appends (seq 0 (Z.to_nat size)) w)
    as (news & w' & Hrun & Hpool & Hall & Hnames & Hfake & Hrng).
  rewrite length_seq in Hfake, Hrng.
  exists news, w'. split; [exact Hrun |]. split; [exact Hpool |].
  assert (length news = Z.to_nat size) as Hlen.
  { apply Forall2_length in Hall. rewrite length_seq in Hall. lia. }
  split; [exact Hlen |].
  split; [| split; [exact Hfake | split; [exact Hrng |]]].
  - intros k p Hk. destruct (Hnames k p Hk) as [Hn Hl].
    assert (fresh k p) as (Hid & Hlv & Htp & Hki & Hde).
    { eapply (Forall2_lookup_lr _ _ _ k k p Hall); [| exact Hk].
      rewrite lookup_seq. split; [reflexivity |].
      apply lookup_lt_Some in Hk. lia. }
    repeat split; try assumption; lia.
  - intros Hsize. replace (Z.to_nat size) with 0%nat in Hrun by lia.
    cbn [seq for_loop] in Hrun. injection Hrun as <-. reflexivity.
Qed.

(** X4.  [init_player_pool] does not start from an empty pool of its own:
    a second call on the pool of a first one adds the same identifiers
    again, so that the pool of [2 * size] players no longer has distinct
    identifiers. *)
Theorem init_player_pool_twice (size : Z) (g : Rng.t) (f : Faker.t) :
  1 <= size ->
  exists w1 w2,
    init_player_pool size (fresh_world g f) = (Ok tt, w1)
    /\ init_player_pool size w1 = (Ok tt, w2)
    /\ Z.of_nat (length (PLAYER_POOL w2)) = 2 * size
    /\ take (Z.to_nat size) (PLAYER_POOL w2) = PLAYER_POOL w1
    /\ map Player.player_id (drop (Z.to_nat size) (PLAYER_POOL w2))
       = map Player.player_id (PLAYER_POOL w1)
    /\ ~ NoDup (map Player.player_id (PLAYER_POOL w2)).
Proof.
  intros Hsize.
  destruct (init_player_pool_run size g f) as (w1 & Hrun1 & Hall1).
  destruct (init_loop_appends (seq 0 (Z.to_nat size)) w1)
    as (news & w2 & Hrun2 & Hpool2 & Hall2 & _).
  exists w1, w2. split; [exact Hrun1 |]. split; [exact Hrun2 |].
  assert (length (PLAYER_POOL w1) = Z.to_nat size) as Hlen1.
  { apply Forall2_length in Hall1. rewrite length_seq in Hall1. lia. }
  assert (length news = Z.to_nat size) as Hlen2.
  { apply Forall2_length in Hall2. rewrite length_seq in Hall2. lia. }
  assert (map Player.player_id news = map Player.player_id (PLAYER_POOL w1))
    as Hsame.
  { rewrite (Forall2_fresh_ids 0 _ _ Hall1), (Forall2_fresh_ids 0 _ _ Hall2).
    reflexivity. }
  rewrite Hpool2. split; [rewrite length_app; lia |].
  split; [rewrite <- Hlen1; apply take_app_length |].
  split; [rewrite <- Hlen1, drop_app_length; exact Hsame |].
  rewrite List.map_app, Hsame. intros Hnodup.
  apply NoDup_app in Hnodup as (_ & Hdisj & _).
  destruct (PLAYER_POOL w1) as [|p l] eqn:Hp; [cbn in Hlen1; lia |].
  apply (Hdisj (Player.player_id p)); cbn; left.
Qed.

Lemma init_player_pool_twice_witness :
  1 <= 2
  /\ exists w1 w2,
       init_player_pool 2 (fresh_world sample_rng sample_faker) = (Ok tt, w1)
       /\ init_player_pool 2 w1 = (Ok tt, w2)
       /\ Z.of_nat (length (PLAYER_POOL w2)) = 2 * 2
       /\ take (Z.to_nat 2) (PLAYER_POOL w2) = PLAYER_POOL w1
       /\ map Player.player_id (drop (Z.to_nat 2) (PLAYER_POOL w2))
          = map Player.player_id (PLAYER_POOL w1)
       /\ ~ NoDup (map Player.player_id (PLAYER_POOL w2)).
Proof.
  split; [lia |].
  apply (init_player_pool_twice 2 sample_rng sample_faker). lia.
Defined.

(** ** The pool during [main] *)

Lemma apply_event_name (ev : Event.t) (q : Player.t) :
  Player.player_name (apply_event ev q) = Player.player_name q.
Proof.
  unfold apply_event.
  destruct (Event.player_id ev =? Player.player_id q)%string; reflexivity.
Qed.

Lemma replay_name (evs : list Event.t) (q : Player.t) :
  Player.player_name (replay evs q) = Player.player_name q.
Proof.
  revert q. induction evs as [|ev evs IH]; intros q; [reflexivity |].
  cbn [replay fold_left]. fold (replay evs (apply_event ev q)).
  rewrite IH. apply apply_event_name.
Qed.

Lemma kd_ratio_range (q : Player.t) :
  0 <= Player.kills q -> 0 <= Player.deaths q ->
  (0 <= kd_ratio q)%Q /\ (kd_ratio q <= inject_Z (Player.kills q))%Q.
Proof.
  intros Hk Hd. unfold kd_ratio.
  destruct (Z.ltb_spec 0 (Player.deaths q)) as [Hpos|Hzero].
  - unfold Qle, inject_Z. cbn [Qnum Qden].
    assert (1 <= Z.pos (Z.to_pos (Player.deaths q))) by lia.
    split; nia.
  - unfold Qle, inject_Z. cbn [Qnum Qden]. lia.
Qed.

(** X5.  At every stop of [main], however many rounds were run and
    whatever the database did, the pool is the one that [init_player_pool]
    built as far as identity goes: 50 players, the one at place [k] with the
    identifier made of [k] and the [k]-th name of the [Faker] instance.
    Every level lies in [1, 100], [kills] and [deaths] are not negative,
    and the kill/death ratio that [print_statistics] shows lies between 0
    and the number of kills. *)
Theorem main_pool_invariant
    (g : Rng.t) (f : Faker.t) (c : Conn.t) (rounds : nat) :
  exists st s',
    main g f c rounds = (st, s')
    /\ length (PLAYER_POOL (world s')) = 50%nat
    /\ forall k q,
         PLAYER_POOL (world s') !! k = Some q ->
         Player.player_id q = "PLAYER_" ++ format_04d k
         /\ Player.player_name q = Faker.names f (k + Faker.pos f)
         /\ 1 <= Player.level q <= 100
         /\ 0 <= Player.kills q
         /\ 0 <= Player.deaths q
         /\ (0 <= kd_ratio q)%Q
         /\ (kd_ratio q <= inject_Z (Player.kills q))%Q.
Proof.
  unfold main, init_player_pool, range.
  destruct (init_loop_appends (seq 0 (Z.to_nat 50)) (fresh_world g f))
    as (news & w0 & Hinit & Hpool0 & Hfresh & Hnames & _).
  rewrite Hinit. cbn [fresh_world PLAYER_POOL app fake] in Hpool0, Hnames.
  subst news.
  assert (length (PLAYER_POOL w0) = 50%nat) as Hlen.
  { apply Forall2_length in Hfresh. rewrite length_seq in Hfresh.
    rewrite <- Hfresh. reflexivity. }
  assert (forall k q,
            PLAYER_POOL w0 !! k = Some q ->
            fresh k q
            /\ Player.player_name q = Faker.names f (k + Faker.pos f))
    as Hnew.
  { intros k q Hq. split; [| apply (Hnames k q Hq)].
    eapply (Forall2_lookup_lr _ _ _ k k q Hfresh); [| exact Hq].
    rewrite lookup_seq. split; [reflexivity |].
    apply lookup_lt_Some in Hq. rewrite Hlen in Hq. cbn. lia. }
  assert (PLAYER_POOL w0 <> []) as Hne0.
  { intros Hnil. rewrite Hnil in Hlen. discriminate. }
  assert (NoDup (map Player.player_id (PLAYER_POOL w0))) as Hnodup0.
  { rewrite (Forall2_fresh_ids 0 _ _ Hfresh). apply fresh_ids_NoDup. }
  destruct (main_loop rounds (mkLoop w0 c 0 [])) as [st s'] eqn:Hloop.
  destruct (main_loop_calls rounds (mkLoop w0 c 0 []) s' st Hne0 Hloop)
    as (new & Hcalls & _ & _).
  cbn [world] in Hcalls.
  destruct (calls_at _ _ _ Hcalls Hne0) as [[_ Hlen'] Hat].
  exists st, s'. split; [reflexivity |]. split; [congruence |].
  intros k q' Hq'.
  destruct (lookup_lt_is_Some_2 (PLAYER_POOL w0) k) as [q Hq].
  { rewrite <- Hlen'. eapply lookup_lt_Some. exact Hq'. }
  destruct (Hnew k q Hq) as ((Hid & Hlv & _ & Hk0 & Hd0) & Hname).
  destruct (Hat k q Hq) as (q1 & Hq1 & _ & Hmono & Hcap & _).
  destruct (calls_bounds _ _ _ Hcalls Hnodup0 k q Hq)
    as (q2 & Hq2 & _ & _ & Hkills & Hdeaths & _).
  rewrite Hq' in Hq1, Hq2. injection Hq1 as <-. injection Hq2 as <-.
  pose proof (calls_replay _ _ _ Hcalls Hnodup0) as Hreplay.
  rewrite Hreplay, list_lookup_fmap, Hq in Hq'. injection Hq' as Hq'.
  assert (0 <= Player.kills q') as Hk by lia.
  assert (0 <= Player.deaths q') as Hd by lia.
  destruct (kd_ratio_range q' Hk Hd) as [Hr0 Hr1].
  split; [rewrite <- Hq', replay_id; exact Hid |].
  split; [rewrite <- Hq', replay_name; exact Hname |].
  split; [split; [lia | apply Hcap; lia] |].
  repeat split; assumption.
Qed.

(** ** The empty pool *)

(** X6.  On an empty pool [generate_event] raises [IndexError] at its
    first line: no variate is read and nothing changes.  A main loop
    started on an empty pool (as after [init_player_pool(0)]) therefore
    ends in its first round, before any call to the database, with the
    counter and the trace as they were. *)
Theorem empty_pool_stops_the_loop
    (w : World) (c : Conn.t) (count : Z)
    (tr : list (Event.t * option bool)) (n rounds : nat) :
  PLAYER_POOL w = [] ->
  generate_event w = (Raise IndexError, w)
  /\ generate_events (S n) w = (Raise IndexError, w)
  /\ main_loop (S rounds) (mkLoop w c count tr)
     = (Crashed IndexError, mkLoop w c count tr)
  /\ init_player_pool 0 w = (Ok tt, w).
Proof.
  intros Hnil. pose proof (generate_event_empty w Hnil) as Hrun.
  split; [exact Hrun |]. split; [| split; [| reflexivity]].
  - cbn [generate_events]. unfold bind at 1. rewrite Hrun. reflexivity.
  - cbn [main_loop]. unfold loop_body. cbn [world]. rewrite Hrun.
    reflexivity.
Qed.

Lemma empty_pool_stops_the_loop_witness :
  PLAYER_POOL (fresh_world sample_rng sample_faker) = []
  /\ generate_event (fresh_world sample_rng sample_faker)
     = (Raise IndexError, fresh_world sample_rng sample_faker)
  /\ generate_events 3 (fresh_world sample_rng sample_faker)
     = (Raise IndexError, fresh_world sample_rng sample_faker)
  /\ main_loop 5 (mkLoop (fresh_world sample_rng sample_faker)
                    failing_conn 0 [])
     = (Crashed IndexError,
        mkLoop (fresh_world sample_rng sample_faker) failing_conn 0 [])
  /\ init_player_pool 0 (fresh_world sample_rng sample_faker)
     = (Ok tt, fresh_world sample_rng sample_faker).
Proof.
  split; [reflexivity |].
  exact (empty_pool_stops_the_loop (fresh_world sample_rng sample_faker)
           failing_conn 0 [] 2 4 eq_refl).
Defined.

(** ** The variates that a call reads *)

Lemma advance_pos (g : Rng.t) (k : nat) :
  Nat.iter k Rng.advance g = Rng.mk (Rng.tape g) (k + Rng.pos g).
Proof.
  induction k as [|k IH].
  - destruct g; reflexivity.
  - change (Nat.iter (S k) Rng.advance g)
      with (Rng.advance (Nat.iter k Rng.advance g)).
    rewrite IH. reflexivity.
Qed.

Lemma generate_event_rng (w : World) :
  PLAYER_POOL w <> [] ->
  exists ev w',
    generate_event w = (Ok ev, w')
    /\ rng w'
       = Rng.mk (Rng.tape (rng w))
           (draws (Event.action_type ev) + Rng.pos (rng w)).
Proof.
  intros Hne.
  destruct (lookup_lt_is_Some_2 _ _ (random_index_range _ w Hne)) as [p Hp].
  destruct (catalog_choices_run (tick w)) as (a & info & Hch & _ & Hin).
  pose proof (catalog_range a info Hin) as Hrange.
  fold (selected_index w) in Hp. set (i := selected_index w) in *.
  assert (i < length (PLAYER_POOL w))%nat as Hi
    by (eapply lookup_lt_Some; exact Hp).
  unfold generate_event.
  rewrite (bind_ok get_pool _ w w (PLAYER_POOL w) eq_refl).
  rewrite (bind_ok _ _ _ _ _ (random_index_run _ w Hne)).
  fold (selected_index w). fold i. cbv zeta.
  rewrite (bind_ok _ _ _ _ _ (for_each_weights _)).
  rewrite (bind_ok _ _ _ _ _ Hch).
  rewrite (bind_ok (subscript [a] 0) _ _ _ a eq_refl).
  unfold getitem at 1. rewrite (catalog_assoc a info Hin).
  rewrite (bind_ok (ret info) _ _ _ info eq_refl).
  destruct (points_range info) as [lo hi]. cbn [fst snd] in Hrange.
  rewrite (bind_ok _ _ _ _ _ (randint_run lo hi _ Hrange)).
  set (points := lo + _).
  rewrite (bind_ok _ _ _ _ _ (update_player_run _ _ _)).
  rewrite (bind_ok _ _ _ _ _ (count_block_run a _ _)).
  match goal with |- context [bind _ _ ?W] => set (W2 := W) end.
  assert (rng W2 = Nat.iter 3 Rng.advance (rng w)) as Hrng2 by reflexivity.
  assert (exists q, PLAYER_POOL W2 !! i = Some q) as [q Hq2].
  { eexists. unfold W2. rewrite !pool_with_pool, !pool_tick.
    rewrite !list_lookup_alter_eq, Hp. reflexivity. }
  assert (length (PLAYER_POOL W2) = length (PLAYER_POOL w)) as Hlen2.
  { unfold W2. rewrite !pool_with_pool, !pool_tick, !length_alter.
    reflexivity. }
  clearbody W2.
  rewrite (bind_ok _ _ _ _ _ (roll_run a W2)).
  set (fired := (a =? "level_up")%string || _).
  set (W3 := if (a =? "level_up")%string then W2 else tick W2).
  assert (PLAYER_POOL W3 = PLAYER_POOL W2) as Hpool3
    by (unfold W3; destruct (a =? "level_up")%string; reflexivity).
  assert (rng W3 = if (a =? "level_up")%string then rng W2
                   else Rng.advance (rng W2)) as Hrng3
    by (unfold W3; destruct (a =? "level_up")%string; reflexivity).
  clearbody W3 fired.
  rewrite (bind_ok _ _ _ _ _ (level_block_run fired i q W3
    ltac:(rewrite Hpool3; exact Hq2))).
  set (W4 := with_pool _ W3).
  assert (rng W4 = rng W3) as Hrng4 by reflexivity.
  assert (PLAYER_POOL W4 !! i = Some (bump_level fired q)) as Hq4.
  { unfold W4. rewrite pool_with_pool. apply list_lookup_insert_eq.
    rewrite Hpool3, Hlen2. exact Hi. }
  clearbody W4.
  destruct (weapon_run a W4) as (weapon & Hw & _).
  rewrite (bind_ok _ _ _ _ _ Hw). cbv beta.
  set (W5 := if str_in a ["kill"; "headshot"; "death"] then tick W4 else W4)
    in *.
  assert (PLAYER_POOL W5 = PLAYER_POOL W4) as Hpool5
    by (unfold W5; destruct (str_in a _); reflexivity).
  assert (rng W5 = if str_in a ["kill"; "headshot"; "death"]
                   then Rng.advance (rng W4) else rng W4) as Hrng5
    by (unfold W5; destruct (str_in a _); reflexivity).
  clearbody W5.
  destruct (random_choice_run MAPS W5) as (m & Hm & _); [discriminate |].
  rewrite (bind_ok _ _ _ _ _ Hm).
  rewrite (bind_ok _ _ _ _ _ (read_player_run i (bump_level fired q) (tick W5)
    ltac:(rewrite pool_tick, Hpool5; exact Hq4))).
  eexists _, (tick W5). split; [reflexivity |].
  cbn [Event.action_type]. change (rng (tick W5)) with (Rng.advance (rng W5)).
  rewrite Hrng5, Hrng4, Hrng3, Hrng2. unfold draws.
  destruct (String.eqb_spec a "level_up") as [->|Hlu].
  - cbn [str_in existsb String.eqb Ascii.eqb Bool.eqb orb].
    apply (advance_pos (rng w) 4).
  - destruct (str_in a ["kill"; "headshot"; "death"]).
    + apply (advance_pos (rng w) 6).
    + apply (advance_pos (rng w) 5).
Qed.

(** X7.  A call of [generate_event] reads the tape of the [random] module
    in order and never writes it.  It reads four variates when the action
    is [level_up] (player, action, points, map: the 5% roll is not drawn,
    the [or] being decided by its first operand), six when the action is
    [kill], [headshot] or [death] (the roll and the weapon as well), and
    five otherwise. *)
Theorem generate_event_draws (w : World) :
  PLAYER_POOL w <> [] ->
  exists ev w',
    generate_event w = (Ok ev, w')
    /\ Rng.tape (rng w') = Rng.tape (rng w)
    /\ Rng.pos (rng w')
       = (draws (Event.action_type ev) + Rng.pos (rng w))%nat
    /\ (Event.action_type ev = "level_up" ->
        draws (Event.action_type ev) = 4%nat)
    /\ (Event.weapon ev <> None -> draws (Event.action_type ev) = 6%nat)
    /\ (Event.action_type ev <> "level_up" -> Event.weapon ev = None ->
        draws (Event.action_type ev) = 5%nat).
Proof.
  intros Hne.
  destruct (generate_event_rng w Hne) as (ev & w' & Hrun & Hrng).
  destruct (generate_event_call w Hne) as (ev0 & w0 & p & info & Hcall & H).
  cbv zeta in Hcall, H. destruct Hcall as (Hrun0 & _).
  rewrite Hrun in Hrun0. injection Hrun0 as <- <-.
  destruct H as (_ & _ & _ & _ & _ & _ & _ & _ & Hweapon & _).
  exists ev, w'. split; [exact Hrun |]. rewrite Hrng.
  split; [reflexivity |]. split; [reflexivity |].
  unfold draws.
  destruct (String.eqb_spec (Event.action_type ev) "level_up") as [Hlu|Hlu].
  - rewrite Hlu in Hweapon. cbn in Hweapon.
    split; [reflexivity |]. split; [congruence | congruence].
  - destruct (str_in (Event.action_type ev) ["kill"; "headshot"; "death"]).
    + destruct Hweapon as (wp & Hwp & _).
      split; [congruence |]. split; [reflexivity | congruence].
    + split; [congruence |]. split; [congruence | reflexivity].
Qed.

Lemma generate_event_draws_witness :
  PLAYER_POOL sample_world <> []
  /\ exists ev w',
       generate_event sample_world = (Ok ev, w')
       /\ Rng.tape (rng w') = Rng.tape (rng sample_world)
       /\ Rng.pos (rng w')
          = (draws (Event.action_type ev) + Rng.pos (rng sample_world))%nat
       /\ (Event.action_type ev = "level_up" ->
           draws (Event.action_type ev) = 4%nat)
       /\ (Event.weapon ev <> None -> draws (Event.action_type ev) = 6%nat)
       /\ (Event.action_type ev <> "level_up" -> Event.weapon ev = None ->
           draws (Event.action_type ev) = 5%nat).
Proof.
  split; [discriminate |].
  apply (generate_event_draws sample_world). discriminate.
Defined.

(** ** [connect_to_db] *)








(** ** [insert_event] and the accounts of the loop *)

Lemma insert_event_outcomes (c : Conn.t) (e : Event.t) :
  exists r c',
    insert_event c e = (r, c')
    /\ Conn.faults c' = Conn.faults c
    /\ match r with
       | Ok true =>
           Conn.rows c' = (Conn.rows c ++ Conn.pending c ++ [e])%list
           /\ Conn.pending c' = []
           /\ Conn.pos c' = (2 + Conn.pos c)%nat
           /\ Conn.faults c (Conn.pos c) = false
           /\ Conn.faults c (S (Conn.pos c)) = false
       | Ok false =>
           Conn.rows c' = Conn.rows c
           /\ Conn.pending c' = []
           /\ (Conn.faults c (Conn.pos c) = true
               /\ Conn.faults c (S (Conn.pos c)) = false
               /\ Conn.pos c' = (2 + Conn.pos c)%nat
               \/ Conn.faults c (Conn.pos c) = false
                  /\ Conn.faults c (S (Conn.pos c)) = true
                  /\ Conn.faults c (S (S (Conn.pos c))) = false
                  /\ Conn.pos c' = (3 + Conn.pos c)%nat)
       | Raise x =>
           x = DatabaseError
           /\ Conn.rows c' = Conn.rows c
           /\ (Conn.faults c (Conn.pos c) = true
               /\ Conn.faults c (S (Conn.pos c)) = true
               /\ Conn.pos c' = (2 + Conn.pos c)%nat
               \/ Conn.faults c (Conn.pos c) = false
                  /\ Conn.faults c (S (Conn.pos c)) = true
                  /\ Conn.faults c (S (S (Conn.pos c))) = true
                  /\ Conn.pos c' = (3 + Conn.pos c)%nat)
       end.
Proof.
  unfold insert_event, Conn.execute, Conn.commit, Conn.rollback,
    Conn.next_fault, Conn.step.
  destruct (Conn.faults c (Conn.pos c)) eqn:H0;
    cbn [Conn.faults Conn.pos Conn.rows Conn.pending].
  - destruct (Conn.faults c (S (Conn.pos c))) eqn:H1;
      eexists _, _; (split; [reflexivity |]); cbn; auto 10.
  - destruct (Conn.faults c (S (Conn.pos c))) eqn:H1;
      cbn [Conn.faults Conn.pos Conn.rows Conn.pending].
    + destruct (Conn.faults c (S (S (Conn.pos c)))) eqn:H2;
        eexists _, _; (split; [reflexivity |]); cbn; auto 10.
    + eexists _, _. split; [reflexivity |]. cbn. auto 10.
Qed.

(** X11.  [insert_event] makes two or three calls on the connection and
    ends in one of three ways.  It returns [True] exactly when neither
    [execute] nor [commit] raised: the event is then stored and no
    transaction is left open.  It returns [False] when one of them raised
    and [rollback] went through: the stored rows are untouched and the
    transaction is discarded.  It raises only when [rollback] raised: the
    stored rows are untouched as well. *)
Theorem insert_event_transaction (c : Conn.t) (e : Event.t) :
  exists r c',
    insert_event c e = (r, c')
    /\ (Conn.pos c' = (2 + Conn.pos c)%nat
        \/ Conn.pos c' = (3 + Conn.pos c)%nat)
    /\ (r = Ok true
        <-> Conn.faults c (Conn.pos c) = false
            /\ Conn.faults c (S (Conn.pos c)) = false)
    /\ (r = Ok true ->
        Conn.rows c' = (Conn.rows c ++ Conn.pending c ++ [e])%list
        /\ Conn.pending c' = [])
    /\ (r = Ok false -> Conn.rows c' = Conn.rows c /\ Conn.pending c' = [])
    /\ (forall x, r = Raise x ->
                  x = DatabaseError /\ Conn.rows c' = Conn.rows c)
    /\ (r <> Ok true -> In e (Conn.rows c') -> In e (Conn.rows c)).
Proof.
  destruct (insert_event_outcomes c e) as (r & c' & Hrun & _ & Hcase).
  exists r, c'. split; [exact Hrun |].
  destruct r as [[|]|x].
  - destruct Hcase as (Hrows & Hpend & Hpos & H0 & H1).
    split; [left; exact Hpos |]. split; [split; [auto | reflexivity] |].
    split; [auto |]. split; [discriminate |]. split; [discriminate |].
    congruence.
  - destruct Hcase as (Hrows & Hpend & Hscript).
    split; [destruct Hscript as [(_ & _ & Hp)|(_ & _ & _ & Hp)]; auto |].
    split.
    { split; [discriminate |]. intros [H0 H1].
      destruct Hscript as [(H0' & _)|(_ & H1' & _)]; congruence. }
    split; [discriminate |]. split; [auto |]. split; [discriminate |].
    intros _. rewrite Hrows. auto.
  - destruct Hcase as (Hx & Hrows & Hscript).
    split; [destruct Hscript as [(_ & _ & Hp)|(_ & _ & _ & Hp)]; auto |].
    split.
    { split; [discriminate |]. intros [H0 H1].
      destruct Hscript as [(H0' & _)|(_ & H1' & _)]; congruence. }
    split; [discriminate |]. split; [discriminate |].
    split; [intros y Hy; injection Hy as <-; auto |].
    intros _. rewrite Hrows. auto.
Qed.


(** One round of the loop on a pool that is not empty, with no transaction
    left open on the connection. *)
Lemma loop_body_accounts (s : LoopState) :
  PLAYER_POOL (world s) <> [] -> Conn.pending (conn s) = [] ->
  exists r s1 ev o,
    loop_body s = (r, s1)
    /\ generate_event (world s) = (Ok ev, world s1)
    /\ trace s1 = (trace s ++ [(ev, o)])%list
    /\ Conn.rows (conn s1) = (Conn.rows (conn s) ++ stored [(ev, o)])%list
    /\ event_count s1 = event_count s + Z.of_nat (length (stored [(ev, o)]))
    /\ PLAYER_POOL (world s1) <> []
    /\ Conn.faults (conn s1) = Conn.faults (conn s)
    /\ (o = Some true
        <-> Conn.faults (conn s) (Conn.pos (conn s)) = false
            /\ Conn.faults (conn s) (S (Conn.pos (conn s))) = false)
    /\ (o = Some true -> Conn.pos (conn s1) = (2 + Conn.pos (conn s))%nat)
    /\ match r with
       | Ok _ => o <> None /\ Conn.pending (conn s1) = []
       | Raise e => e = DatabaseError /\ o = None
       end.
Proof.
  intros Hne Hpend.
  destruct (generate_event_call (world s) Hne)
    as (ev & w1 & p & info & (Hrun & _) & _).
  destruct (generate_event_nonempty _ _ _ Hne Hrun) as [Hne1 _].
  destruct (insert_event_outcomes (conn s) ev) as (r & c1 & Hins & Hf & Hcase).
  unfold loop_body. rewrite Hrun, Hins.
  destruct r as [[|]|x].
  - destruct Hcase as (Hrows & Hp & Hpos & H0 & H1).
    eexists _, _, ev, (Some true). split; [reflexivity |].
    cbn [world conn event_count trace stored length].
    rewrite Hpend in Hrows.
    assert ((if (event_count s + 1) mod 50 =? 0
             then snd (print_statistics w1) else w1) = w1) as ->.
    { destruct (_ =? 0); [destruct w1 |]; reflexivity. }
    repeat split; auto; try discriminate; try lia.
  - destruct Hcase as (Hrows & Hp & Hscript).
    eexists _, _, ev, (Some false). split; [reflexivity |].
    cbn [world conn event_count trace stored length].
    rewrite app_nil_r.
    repeat split; auto; try discriminate; try lia.
    intros [H0 H1].
    destruct Hscript as [(H0' & _)|(_ & H1' & _)]; congruence.
  - destruct Hcase as (Hx & Hrows & Hscript).
    eexists _, _, ev, None. split; [reflexivity |].
    cbn [world conn event_count trace stored length].
    rewrite app_nil_r.
    repeat split; auto; try discriminate; try lia.
    intros [H0 H1].
    destruct Hscript as [(H0' & _)|(_ & H1' & _)]; congruence.
Qed.




(** ** A connection that never raises *)

Lemma main_loop_healthy (rounds : nat) (s : LoopState) :
  PLAYER_POOL (world s) <> [] -> Conn.pending (conn s) = [] ->
  healthy (conn s) ->
  exists s' evs,
    main_loop rounds s = (Interrupted, s')
    /\ generate_events rounds (world s) = (Ok evs, world s')
    /\ length evs = rounds
    /\ trace s' = (trace s ++ map (fun e => (e, Some true)) evs)%list
    /\ Conn.rows (conn s') = (Conn.rows (conn s) ++ evs)%list
    /\ event_count s' = event_count s + Z.of_nat rounds
    /\ Conn.pos (conn s') = (2 * rounds + Conn.pos (conn s))%nat
    /\ Conn.pending (conn s') = [].
Proof.
  revert s. induction rounds as [|rounds IH]; intros s Hne Hpend Hok.
  - exists s, []. cbn [main_loop generate_events map length].
    rewrite !app_nil_r. repeat split; auto. lia.
  - destruct (loop_body_accounts s Hne Hpend)
      as (r & s1 & ev & o & Hbody & Hrun & Htrace & Hrows & Hcount & Hne1
          & Hf & Hiff & Hpos & Hr).
    assert (o = Some true) as Ho.
    { apply Hiff. split; apply Hok; lia. }
    subst o. specialize (Hpos eq_refl).
    destruct r as [[]|e]; [| destruct Hr as [_ Hr]; discriminate].
    destruct Hr as [_ Hpend1].
    assert (healthy (conn s1)) as Hok1.
    { intros k Hk. rewrite Hf. apply Hok. lia. }
    destruct (IH s1 Hne1 Hpend1 Hok1)
      as (s' & evs & Hloop & Hruns & Hlen & Htrace' & Hrows' & Hcount'
          & Hpos' & Hpend').
    exists s', (ev :: evs). cbn [main_loop]. rewrite Hbody.
    split; [exact Hloop |].
    split.
    { cbn [generate_events].
      rewrite (bind_ok _ _ _ _ _ Hrun), (bind_ok _ _ _ _ _ Hruns).
      reflexivity. }
    split; [cbn; lia |].
    split; [rewrite Htrace', Htrace, <- app_assoc; reflexivity |].
    split; [rewrite Hrows', Hrows, <- app_assoc; reflexivity |].
    cbn [stored length] in Hcount.
    split; [lia |]. split; [lia | exact Hpend'].
Qed.

(** X13.  On a connection that never raises, with no transaction open,
    every round of the loop stores its event: after [rounds] rounds the
    loop is still running, the table has gained exactly the events that
    [rounds] calls of [generate_event] return, in that order,
    [event_count] has grown by [rounds], and the connection has served two
    calls for each event ([execute] and [commit], never [rollback]). *)
Theorem healthy_connection_stores_every_event
    (rounds : nat) (s : LoopState) :
  PLAYER_POOL (world s) <> [] -> Conn.pending (conn s) = [] ->
  healthy (conn s) ->
  exists s' evs,
    main_loop rounds s = (Interrupted, s')
    /\ generate_events rounds (world s) = (Ok evs, world s')
    /\ length evs = rounds
    /\ trace s' = (trace s ++ map (fun e => (e, Some true)) evs)%list
    /\ Conn.rows (conn s') = (Conn.rows (conn s) ++ evs)%list
    /\ event_count s' = event_count s + Z.of_nat rounds
    /\ Conn.pos (conn s') = (2 * rounds + Conn.pos (conn s))%nat
    /\ Conn.pending (conn s') = [].
Proof.
  exact (main_loop_healthy rounds s).
Qed.

Lemma healthy_connection_stores_every_event_witness :
  PLAYER_POOL (world healthy_loop) <> []
  /\ Conn.pending (conn healthy_loop) = []
  /\ healthy (conn healthy_loop)
  /\ exists s' evs,
       main_loop 3 healthy_loop = (Interrupted, s')
       /\ generate_events 3 (world healthy_loop) = (Ok evs, world s')
       /\ length evs = 3%nat
       /\ trace s'
          = (trace healthy_loop ++ map (fun e => (e, Some true)) evs)%list
       /\ Conn.rows (conn s') = (Conn.rows (conn healthy_loop) ++ evs)%list
       /\ event_count s' = event_count healthy_loop + Z.of_nat 3
       /\ Conn.pos (conn s') = (2 * 3 + Conn.pos (conn healthy_loop))%nat
       /\ Conn.pending (conn s') = [].
Proof.
  assert (PLAYER_POOL (world healthy_loop) <> []) as Hne by discriminate.
  assert (healthy (conn healthy_loop)) as Hok by (intros k _; reflexivity).
  split; [exact Hne |]. split; [reflexivity |]. split; [exact Hok |].
  exact (healthy_connection_stores_every_event 3 healthy_loop Hne eq_refl Hok).
Defined.

(** ** [main] as a whole *)

(** [main] reaches its loop, with the pool of [init_player_pool(50)]. *)
Lemma main_starts (g : Rng.t) (f : Faker.t) (c : Conn.t) (rounds : nat) :
  exists w0,
    main g f c rounds = main_loop rounds (mkLoop w0 c 0 [])
    /\ length (PLAYER_POOL w0) = 50%nat
    /\ PLAYER_POOL w0 <> []
    /\ NoDup (map Player.player_id (PLAYER_POOL w0))
    /\ forall k q,
         PLAYER_POOL w0 !! k = Some q ->
         fresh k q /\ Player.player_name q = Faker.names f (k + Faker.pos f).
Proof.
  unfold main, init_player_pool, range.
  destruct (init_loop_appends (seq 0 (Z.to_nat 50)) (fresh_world g f))
    as (news & w0 & Hinit & Hpool0 & Hfresh & Hnames & _).
  rewrite Hinit. cbn [fresh_world PLAYER_POOL app fake] in Hpool0, Hnames.
  subst news.
  assert (length (PLAYER_POOL w0) = 50%nat) as Hlen.
  { apply Forall2_length in Hfresh. rewrite length_seq in Hfresh.
    rewrite <- Hfresh. reflexivity. }
  exists w0. split; [reflexivity |]. split; [exact Hlen |].
  split; [intros Hnil; rewrite Hnil in Hlen; discriminate |].
  split; [rewrite (Forall2_fresh_ids 0 _ _ Hfresh); apply fresh_ids_NoDup |].
  intros k q Hq. split; [| apply (Hnames k q Hq)].
  eapply (Forall2_lookup_lr _ _ _ k k q Hfresh); [| exact Hq].
  rewrite lookup_seq. split; [reflexivity |].
  apply lookup_lt_Some in Hq. rewrite Hlen in Hq. cbn. lia.
Qed.



(** Every event of a sequence of calls carries the identifier and the name
    of a player of the pool the sequence started on, a level that this
    player has reached, and what one call puts in an event. *)
Lemma calls_events (w w' : World) (evs : list Event.t) :
  calls w evs w' -> PLAYER_POOL w <> [] ->
  forall e, e ∈ evs ->
    exists j q info,
      PLAYER_POOL w !! j = Some q
      /\ Event.player_id e = Player.player_id q
      /\ Event.player_name e = Player.player_name q
      /\ Player.level q <= Event.level e
      /\ (Player.level q <= 100 -> Event.level e <= 100)
      /\ (Event.action_type e, info) ∈ ACTION_TYPES
      /\ fst (points_range info) <= Event.points e <= snd (points_range info)
      /\ (if str_in (Event.action_type e) ["kill"; "headshot"; "death"]
          then exists wp, Event.weapon e = Some wp /\ wp ∈ WEAPONS
          else Event.weapon e = None)
      /\ Event.map_name e ∈ MAPS.
Proof.
  induction 1 as [w|w ev w1 evs w2 Hev _ IH]; intros Hne e He.
  - inversion He.
  - destruct (generate_event_nonempty _ _ _ Hne Hev) as [Hne1 Hlen1].
    apply elem_of_cons in He as [->|He].
    + destruct (generate_event_call w Hne) as (ev0 & w0 & p & info & Hcall & H).
      cbv zeta in Hcall, H. destruct Hcall as (Hrun0 & Hp & _).
      rewrite Hev in Hrun0. injection Hrun0 as <- <-.
      destruct H as (_ & _ & Hin & _ & Hpts & Hid & Hname & Hlevel & Hweapon
                     & Hmap).
      exists (selected_index w), p, info.
      split; [exact Hp |]. split; [exact Hid |]. split; [exact Hname |].
      rewrite Hlevel, played_level.
      split.
      { destruct (_ && _); lia. }
      split.
      { intros Hcap.
        destruct (_ || _); cbn [andb]; [| exact Hcap].
        destruct (Z.ltb_spec (Player.level p) 100); lia. }
      split; [exact Hin |].
      split; [rewrite Hpts; apply (drawn_points_range _ _ _ Hin) |].
      split; assumption.
    + destruct (IH Hne1 e He)
        as (j & q1 & info & Hq1 & Hid & Hname & Hlo & Hcap & Hrest).
      destruct (lookup_lt_is_Some_2 (PLAYER_POOL w) j) as [q Hq].
      { rewrite <- Hlen1. eapply lookup_lt_Some. exact Hq1. }
      destruct (generate_event_at w w1 ev j q Hne Hev Hq)
        as (q' & Hq' & Hid' & Hname' & Hmono & Hcap' & _).
      rewrite Hq1 in Hq'. injection Hq' as <-.
      exists j, q, info. split; [exact Hq |].
      split; [congruence |]. split; [congruence |].
      split; [lia |]. split; [auto |]. exact Hrest.
Qed.

(** X15.  Every event that [main] generates, stored or not, is well
    formed: it carries the identifier and the name of one of the 50 players
    of the pool, an action of the catalogue with points in the range of
    that action, a level in [1, 100], a weapon of the catalogue exactly
    for [kill], [headshot] and [death], and a map of the catalogue. *)
Theorem main_events_well_formed
    (g : Rng.t) (f : Faker.t) (c : Conn.t) (rounds : nat) :
  exists st s',
    main g f c rounds = (st, s')
    /\ forall e o,
         (e, o) ∈ trace s' ->
         exists k info,
           (k < 50)%nat
           /\ Event.player_id e = "PLAYER_" ++ format_04d k
           /\ Event.player_name e = Faker.names f (k + Faker.pos f)
           /\ (Event.action_type e, info) ∈ ACTION_TYPES
           /\ fst (points_range info) <= Event.points e
              <= snd (points_range info)
           /\ -25 <= Event.points e <= 250
           /\ 1 <= Event.level e <= 100
           /\ (if str_in (Event.action_type e) ["kill"; "headshot"; "death"]
               then exists wp, Event.weapon e = Some wp /\ wp ∈ WEAPONS
               else Event.weapon e = None)
           /\ Event.map_name e ∈ MAPS.
Proof.
  destruct (main_starts g f c rounds) as (w0 & Hmain & Hlen & Hne & _ & Hnew).
  rewrite Hmain.
  destruct (main_loop rounds (mkLoop w0 c 0 [])) as [st s'] eqn:Hloop.
  destruct (main_loop_calls rounds (mkLoop w0 c 0 []) s' st Hne Hloop)
    as (new & Hcalls & Htrace & _).
  cbn [world trace app] in Hcalls, Htrace. subst new.
  exists st, s'. split; [reflexivity |].
  intros e o He.
  assert (e ∈ map fst (trace s')) as He'.
  { apply list_elem_of_In, in_map_iff. exists (e, o).
    split; [reflexivity | apply list_elem_of_In; exact He]. }
  destruct (calls_events _ _ _ Hcalls Hne e He')
    as (k & q & info & Hq & Hid & Hname & Hlo & Hcap & Hin & Hpts & Hrest).
  destruct (Hnew k q Hq) as ((Hqid & Hqlv & _) & Hqname).
  exists k, info.
  split; [apply lookup_lt_Some in Hq; lia |].
  split; [congruence |]. split; [congruence |].
  split; [exact Hin |]. split; [exact Hpts |].
  split.
  { clear - Hin Hpts. unfold ACTION_TYPES in Hin.
    repeat (apply elem_of_cons in Hin as [Hin|Hin];
            [injection Hin as _ ->; cbn in Hpts; lia |]).
    inversion Hin. }
  split; [split; [lia | apply Hcap; lia] |].
  exact Hrest.
Qed.
